(** * Mussel aggregation IBM: the simulation loop of
      "6.1 - IBM - Mussel aggregation patterns", embedded and verified.

    The notebook computes with NumPy arrays of IEEE-754 doubles.  A double
    is modelled as an exact real number or one of the three special values
    (+inf, -inf, nan); the arithmetic follows the IEEE rules for the special
    values (division by zero, inf - inf, 0 * inf, comparisons with nan) and
    is exact on finite values: rounding, overflow and the sign of zero are
    abstracted (a zero divisor is +0, which is what the program's divisors
    are when they vanish).  Statements about the values of a run are
    therefore phrased so that they survive rounding: a value the program
    computes is named by the operations that compute it, orders are used
    where rounding preserves them, and parameters are kept in a range where
    no square overflows or underflows. *)

From Stdlib Require Import Reals Lra Lia List ZArith Bool Arith.
Import ListNotations.

Open Scope R_scope.

(** ** Doubles *)

Inductive float : Type :=
| Fin (r : R)
| PInf
| NInf
| NaN.

(** [inf * r] and [r / 0]: an infinity whose sign is that of [r],
    nan when [r] is zero. *)
Definition signed_inf (pos : bool) (r : R) : float :=
  if Rlt_dec 0 r then (if pos then PInf else NInf)
  else if Rlt_dec r 0 then (if pos then NInf else PInf)
  else NaN.

Definition fneg (a : float) : float :=
  match a with
  | Fin x => Fin (- x)
  | PInf => NInf
  | NInf => PInf
  | NaN => NaN
  end.

Definition fadd (a b : float) : float :=
  match a, b with
  | NaN, _ | _, NaN => NaN
  | Fin x, Fin y => Fin (x + y)
  | PInf, NInf | NInf, PInf => NaN
  | PInf, _ | _, PInf => PInf
  | NInf, _ | _, NInf => NInf
  end.

Definition fsub (a b : float) : float := fadd a (fneg b).

Definition fmul (a b : float) : float :=
  match a, b with
  | NaN, _ | _, NaN => NaN
  | Fin x, Fin y => Fin (x * y)
  | PInf, Fin y => signed_inf true y
  | NInf, Fin y => signed_inf false y
  | Fin x, PInf => signed_inf true x
  | Fin x, NInf => signed_inf false x
  | PInf, PInf | NInf, NInf => PInf
  | PInf, NInf | NInf, PInf => NInf
  end.

Definition fdiv (a b : float) : float :=
  match a, b with
  | NaN, _ | _, NaN => NaN
  | Fin x, Fin y => if Req_dec_T y 0 then signed_inf true x else Fin (x / y)
  | Fin _, _ => Fin 0
  | PInf, Fin y => if Rlt_dec y 0 then NInf else PInf
  | NInf, Fin y => if Rlt_dec y 0 then PInf else NInf
  | _, _ => NaN
  end.

(** [a < b]; false as soon as one side is nan. *)
Definition flt (a b : float) : bool :=
  match a, b with
  | Fin x, Fin y => if Rlt_dec x y then true else false
  | NInf, Fin _ | NInf, PInf | Fin _, PInf => true
  | _, _ => false
  end.

Definition fgt (a b : float) : bool := flt b a.

(** [np.maximum]: nan as soon as one side is nan. *)
Definition fmaximum (a b : float) : float :=
  match a, b with
  | NaN, _ | _, NaN => NaN
  | _, _ => if flt a b then b else a
  end.

(** [a ** 2] is evaluated as the square [a * a]. *)
Definition fsquare (a : float) : float := fmul a a.

(** [a ** 0.5] is evaluated as the square root; its argument in [dist] is
    a sum of two squares. *)
Definition fsqrt (a : float) : float :=
  match a with
  | Fin x => if Rlt_dec x 0 then NaN else Fin (sqrt x)
  | PInf => PInf
  | _ => NaN
  end.

(** [np.log]: -inf at zero, nan below. *)
Definition flog (a : float) : float :=
  match a with
  | Fin x => if Rlt_dec 0 x then Fin (ln x)
             else if Rlt_dec x 0 then NaN else NInf
  | PInf => PInf
  | _ => NaN
  end.

Definition fsin (a : float) : float :=
  match a with Fin x => Fin (sin x) | _ => NaN end.

Definition fcos (a : float) : float :=
  match a with Fin x => Fin (cos x) | _ => NaN end.

(** A boolean array entering arithmetic: [True] is 1.0, [False] is 0.0. *)
Definition of_bool (b : bool) : float := Fin (if b then 1 else 0).

Definition np_pi : float := Fin PI.

(** ** Arrays *)

Definition array := list float.
Definition matrix := list (list float).

(** Elementwise binary operation on arrays of one shape. *)
Fixpoint map2 {A B C : Type} (f : A -> B -> C) (a : list A) (b : list B)
  : list C :=
  match a, b with
  | x :: a', y :: b' => f x y :: map2 f a' b'
  | _, _ => []
  end.

(** [l[i] = v]; the program only writes inside the array. *)
Fixpoint upd {A : Type} (i : nat) (v : A) (l : list A) : list A :=
  match l, i with
  | [], _ => []
  | _ :: l', O => v :: l'
  | x :: l', S i' => x :: upd i' v l'
  end.

(** ** Boundary conditions

    [X = X + Length*(X<0) - Length*(X>Length)], one coordinate. *)
Definition boundary (Length : R) (x : float) : float :=
  fsub (fadd x (fmul (Fin Length) (of_bool (flt x (Fin 0)))))
       (fmul (Fin Length) (of_bool (fgt x (Fin Length)))).

(** ** Python outcomes

    Three kinds of statements of the notebook can raise.  The array
    allocations [np.zeros] and [np.random.rand] refuse a negative dimension
    with a [ValueError]; a dimension that does not fit the address space
    or the memory is outside the model, and the statements about completed
    runs bound N and EndTime.  The division of Python floats
    [1500.0/Length] raises [ZeroDivisionError], and the power of a Python
    float [D**2] raises [OverflowError]; NumPy's own operations on arrays
    warn and return inf or nan instead. *)

Inductive exn : Type := ValueError | ZeroDivisionError | OverflowError.

Inductive result (A : Type) : Type :=
| Ok (a : A)
| Raise (e : exn).
Arguments Ok {A} a.
Arguments Raise {A} e.

Definition bind {A B : Type} (c : result A) (k : A -> result B) : result B :=
  match c with
  | Ok a => k a
  | Raise e => Raise e
  end.

Notation "x <- c ;; k" := (bind c (fun x => k))
  (at level 61, c at next level, right associativity).

Definition zeros (n : nat) : array := repeat (Fin 0) n.
Definition zeros2 (n m : nat) : matrix := repeat (zeros m) n.

Definition np_zeros (n : Z) : result array :=
  if (n <? 0)%Z then Raise ValueError else Ok (zeros (Z.to_nat n)).

Definition np_zeros2 (n m : Z) : result matrix :=
  if ((n <? 0) || (m <? 0))%Z then Raise ValueError
  else Ok (zeros2 (Z.to_nat n) (Z.to_nat m)).

(** [np.fill_diagonal(M, v)] *)
Definition fill_diagonal (M : matrix) (v : float) : matrix :=
  map2 (fun i row => upd i v row) (seq 0 (length M)) M.

(** ** The random generator

    [np.random] is one global generator.  Its state is the sequence [u] of
    uniform variates it is going to deliver, which the seed fixes, and the
    number of variates already consumed (the cursor).  Every variate is a
    finite double. *)

Definition draws (u : nat -> R) (cursor n : nat) : list R :=
  map u (seq cursor n).

Definition np_random_rand (u : nat -> R) (n : Z) (cursor : nat)
  : result (list R * nat) :=
  if (n <? 0)%Z then Raise ValueError
  else Ok (draws u cursor (Z.to_nat n), (cursor + Z.to_nat n)%nat).

(** ** Parameters of the notebook *)

Record config : Type := {
  N : Z;          (* total number of mussels *)
  Length : R;     (* length of the arena *)
  EndTime : Z;    (* number of timesteps *)
  P1 : R;
  P2 : R;
  P3 : R;
  D1 : R;         (* size of the direct neighborhood *)
  D2 : R          (* size of the cluster neighborhood *)
}.

(** ** Function computing the distance matrix *)

(** [x[..., np.newaxis] - x[np.newaxis, ...]]: entry (i, j) is x[i] - x[j]. *)
Definition outer_sub (x : array) : matrix :=
  map (fun xi => map (fun xj => fsub xi xj) x) x.

Definition madd (A B : matrix) : matrix := map2 (map2 fadd) A B.

(** [(d**2).sum(axis=0)**0.5] for the stack [d = [dx, dy]]. *)
Definition dist (x y : array) : matrix :=
  let dx := outer_sub x in
  let dy := outer_sub y in
  map (map fsqrt) (madd (map (map fsquare) dx) (map (map fsquare) dy)).

(** ** One timestep, line by line *)

(** [(Distance<D)*1.0-Diagonal] *)
Definition Nr_In_Dist (D : R) (Distance Diagonal : matrix) : matrix :=
  map2 (map2 (fun d g => fsub (fmul (of_bool (flt d (Fin D))) (Fin 1)) g))
       Distance Diagonal.

Definition ncols (M : matrix) : nat :=
  match M with
  | [] => O
  | row :: _ => length row
  end.

(** [M.sum(axis=0)]: the rows are added up, entry j is the sum of column j. *)
Definition sum_axis0 (M : matrix) : array :=
  fold_left (map2 fadd) M (zeros (ncols M)).

(** [Nr.sum(axis=0)/(D**2*np.pi)] *)
Definition Density_In_Dist (D : R) (Nr : matrix) : array :=
  map (fun s => fdiv s (fmul (fsquare (Fin D)) np_pi)) (sum_axis0 Nr).

(** [1/(np.maximum(0.001,P1*Density_In_Dist1+P2*Density_In_Dist2)+P3)],
    one agent. *)
Definition Beta1 (p1 p2 p3 : R) (d1 d2 : float) : float :=
  fdiv (Fin 1)
       (fadd (fmaximum (Fin 0.001)
                       (fadd (fmul (Fin p1) d1) (fmul (Fin p2) d2)))
             (Fin p3)).

Definition Beta (p1 p2 p3 : R) (Density_In_Dist1 Density_In_Dist2 : array)
  : array :=
  map2 (Beta1 p1 p2 p3) Density_In_Dist1 Density_In_Dist2.

(** [- Beta * np.log(np.random.rand(N))] *)
Definition Stepsize (Beta_ : array) (r : list R) : array :=
  map2 (fun b ri => fmul (fneg b) (flog (Fin ri))) Beta_ r.

(** [np.random.rand(N)*360.0] *)
Definition Angle (r : list R) : array :=
  map (fun ri => fmul (Fin ri) (Fin 360)) r.

(** [np.sin(Angle/180.0*np.pi)*Stepsize] and the same with [np.cos] *)
Definition step_sin (Angle_ Stepsize_ : array) : array :=
  map2 (fun a s => fmul (fsin (fmul (fdiv a (Fin 180)) np_pi)) s)
       Angle_ Stepsize_.

Definition step_cos (Angle_ Stepsize_ : array) : array :=
  map2 (fun a s => fmul (fcos (fmul (fdiv a (Fin 180)) np_pi)) s)
       Angle_ Stepsize_.

(** [Xs[:,Time]=X] *)
Definition set_col (Time : nat) (col : array) (M : matrix) : matrix :=
  map2 (fun row x => upd Time x row) M col.

(** The variables the loop carries from one timestep to the next. *)
Record state : Type := {
  X : array;
  Y : array;
  Xs : matrix;
  Ys : matrix;
  cursor : nat
}.

Section Timestep.

Variable cfg : config.
Variable u : nat -> R.
Variable Diagonal : matrix.

Let n : nat := Z.to_nat (N cfg).

Definition Distance (st : state) : matrix := dist (X st) (Y st).

Definition Nr_In_Dist1 (st : state) : matrix :=
  Nr_In_Dist (D1 cfg) (Distance st) Diagonal.

Definition Nr_In_Dist2 (st : state) : matrix :=
  Nr_In_Dist (D2 cfg) (Distance st) Diagonal.

Definition Density_In_Dist1 (st : state) : array :=
  Density_In_Dist (D1 cfg) (Nr_In_Dist1 st).

Definition Density_In_Dist2 (st : state) : array :=
  Density_In_Dist (D2 cfg) (Nr_In_Dist2 st).

Definition Beta_at (st : state) : array :=
  Beta (P1 cfg) (P2 cfg) (P3 cfg)
       (Density_In_Dist1 st) (Density_In_Dist2 st).

Definition Stepsize_at (st : state) : array :=
  Stepsize (Beta_at st) (draws u (cursor st) n).

Definition Angle_at (st : state) : array :=
  Angle (draws u (cursor st + n) n).

(** Displacements of the timestep, before the boundary conditions. *)
Definition dX (st : state) : array :=
  step_sin (Angle_at st) (Stepsize_at st).

Definition dY (st : state) : array :=
  step_cos (Angle_at st) (Stepsize_at st).

(** The body of [for Time in range(EndTime)]. *)
Definition step (st : state) (Time : nat) : state :=
  let X1 := map2 fadd (X st) (dX st) in
  let Y1 := map2 fadd (Y st) (dY st) in
  let X2 := map (boundary (Length cfg)) X1 in
  let Y2 := map (boundary (Length cfg)) Y1 in
  {| X := X2;
     Y := Y2;
     Xs := set_col Time X2 (Xs st);
     Ys := set_col Time Y2 (Ys st);
     cursor := (cursor st + n + n)%nat |}.

(** The first [k] iterations of the loop. *)
Definition loop (k : nat) (st : state) : state :=
  fold_left step (seq 0 k) st.

End Timestep.

(** The cells "Array declarations" and "Main simulation loop": array
    declarations, initial positions, storage, loop.  The result is the
    pair [(Xs, Ys)].  The errors of Python floats are left to [run_all]
    below. *)
Definition run (cfg : config) (u : nat -> R) : result (matrix * matrix) :=
  _Stepsize <- np_zeros (N cfg) ;;
  _Angle <- np_zeros (N cfg) ;;
  _Distance <- np_zeros2 (N cfg) (N cfg) ;;
  Diagonal0 <- np_zeros2 (N cfg) (N cfg) ;;
  let Diagonal := fill_diagonal Diagonal0 (Fin 1) in
  rx <- np_random_rand u (N cfg) 0 ;;
  let X0 := map (fun r => fmul (Fin r) (Fin (Length cfg))) (fst rx) in
  ry <- np_random_rand u (N cfg) (snd rx) ;;
  let Y0 := map (fun r => fmul (Fin r) (Fin (Length cfg))) (fst ry) in
  Xs0 <- np_zeros2 (N cfg) (EndTime cfg) ;;
  Ys0 <- np_zeros2 (N cfg) (EndTime cfg) ;;
  let final :=
    loop cfg u Diagonal (Z.to_nat (EndTime cfg))
         {| X := X0; Y := Y0; Xs := Xs0; Ys := Ys0; cursor := snd ry |} in
  Ok (Xs final, Ys final).

(** The arrays the loop starts from when no allocation raises: [Diagonal],
    and the state after the cells "Array declarations" and "Storage
    variables". *)
Definition Diagonal (n : nat) : matrix := fill_diagonal (zeros2 n n) (Fin 1).

Definition initial (cfg : config) (u : nat -> R) : state :=
  let n := Z.to_nat (N cfg) in
  {| X := map (fun r => fmul (Fin r) (Fin (Length cfg))) (draws u 0 n);
     Y := map (fun r => fmul (Fin r) (Fin (Length cfg))) (draws u n n);
     Xs := zeros2 n (Z.to_nat (EndTime cfg));
     Ys := zeros2 n (Z.to_nat (EndTime cfg));
     cursor := (n + n)%nat |}.

(** The state when timestep [t] starts, that is after [t] iterations. *)
Definition state_at (cfg : config) (u : nat -> R) (t : nat) : state :=
  loop cfg u (Diagonal (Z.to_nat (N cfg))) t (initial cfg u).

(** ** Vocabulary of the statements *)

(** [M[i,j]] *)
Definition entry (M : matrix) (i j : nat) : float :=
  nth j (nth i M []) NaN.

(** [M] has [n] rows of [m] entries. *)
Definition shape (M : matrix) (n m : nat) : Prop :=
  length M = n /\ Forall (fun row => length row = m) M.

(** Column [j] of [M], top to bottom. *)
Definition column (M : matrix) (j : nat) : array :=
  map (fun row => nth j row NaN) M.

Definition Rsum (l : list R) : R := fold_right Rplus 0 l.

(** Kronecker delta: the entries of [Diagonal]. *)
Definition delta (i j : nat) : R := if (i =? j)%nat then 1 else 0.

(** Euclidean distance between agents [i] and [j] at real positions. *)
Definition euclid (x y : list R) (i j : nat) : R :=
  sqrt ((nth i x 0 - nth j x 0) ^ 2 + (nth i y 0 - nth j y 0) ^ 2).

Definition Rltb (a b : R) : bool := if Rlt_dec a b then true else false.

(** The number of agents other than [j] strictly closer to [j] than [D]. *)
Definition neighbours (x y : list R) (D : R) (j : nat) : nat :=
  length (filter (fun i => negb (i =? j)%nat && Rltb (euclid x y i j) D)
                 (seq 0 (length x))).

Definition agents (cfg : config) : nat := Z.to_nat (N cfg).
Definition timesteps (cfg : config) : nat := Z.to_nat (EndTime cfg).

(** The arrays of a loop state have the shapes the notebook gives them. *)
Definition well_shaped (cfg : config) (st : state) : Prop :=
  length (X st) = agents cfg /\ length (Y st) = agents cfg /\
  shape (Xs st) (agents cfg) (timesteps cfg) /\
  shape (Ys st) (agents cfg) (timesteps cfg).

(** Number of uniform variates a run consumes: two arrays for the initial
    positions, two per timestep. *)
Definition draws_needed (cfg : config) : nat :=
  (2 * agents cfg + 2 * agents cfg * timesteps cfg)%nat.

(** The scale parameter as the specification words it,
    [1 / max(0.001, P1*d1 + P2*d2 + P3)]: the floor applied to the whole
    affine score.  Kept apart from [Beta1], which is the notebook's line. *)
Definition Beta_spec (p1 p2 p3 : R) (d1 d2 : float) : float :=
  fdiv (Fin 1)
       (fmaximum (Fin 0.001)
                 (fadd (fadd (fmul (Fin p1) d1) (fmul (Fin p2) d2))
                       (Fin p3))).

(** A coordinate inside the arena: half-open and closed reading. *)
Definition in_arena (L : R) (v : float) : Prop :=
  exists r : R, v = Fin r /\ 0 <= r < L.

Definition in_closed_arena (L : R) (v : float) : Prop :=
  exists r : R, v = Fin r /\ 0 <= r <= L.

(** A step whose magnitude does not exceed [L]. *)
Definition step_within (L : R) (s : float) : Prop :=
  exists r : R, s = Fin r /\ Rabs r <= L.

(** The parameter cell of the notebook, for [n] mussels and [T] timesteps. *)
Definition notebook (n T : Z) : config :=
  {| N := n; Length := 50; EndTime := T;
     P1 := 100; P2 := -80; P3 := 3; D1 := 2; D2 := 6 |}.

(** Generators used in the examples. *)
Definition halves (k : nat) : R := 1 / 2.

Definition far_apart (k : nat) : R :=
  match k with
  | O => 0
  | _ => 1 / 2
  end.

(** Variates that walk a single mussel onto the edge of the arena: the
    step draw is [exp(-1)], whose logarithm is -1, the angle draw is 0. *)
Definition edge_walk (k : nat) : R :=
  match k with
  | 2%nat => exp (-1)
  | 3%nat => 0
  | _ => 1 / 2
  end.

(** One mussel in an arena of length 2, with [P3] chosen so that an
    isolated mussel has [Beta = 1]. *)
Definition unit_beta : config :=
  {| N := 1; Length := 2; EndTime := 1;
     P1 := 100; P2 := -80; P3 := 0.999; D1 := 2; D2 := 6 |}.

(** Variates whose two draws of the first timestep are zero. *)
Definition zero_draw (k : nat) : R :=
  match k with
  | 2%nat | 3%nat => 0
  | _ => 1 / 2
  end.

(** ** The compiled distance function and the animation *)

(** [d[i,j] = v] *)
Definition set_entry (i j : nat) (v : float) (d : matrix) : matrix :=
  upd i (upd j v (nth i d [])) d.

(** [distp]: the matrix is allocated with zeros and filled cell by cell,
    [d[i,j] = np.sqrt((x[j]-x[i])**2 + (y[j]-y[i])**2)], for [j] over the
    length of [y] and [i] over the length of [x].  The iterations of the two
    [prange] loops write distinct cells and read only [x] and [y], so they
    are taken in order.  The function indexes [x] with [j]: it is meant for
    arrays of one length, and what it reads past the end of an array is not
    modelled (the default of [nth] stands there). *)
Definition distp (x y : array) : matrix :=
  let d := zeros2 (length x) (length y) in
  fold_left
    (fun d j =>
       fold_left
         (fun d i =>
            set_entry i j
              (fsqrt (fadd (fsquare (fsub (nth j x NaN) (nth i x NaN)))
                           (fsquare (fsub (nth j y NaN) (nth i y NaN)))))
              d)
         (seq 0 (length x)) d)
    (seq 0 (length y)) d.

(** [updatefig(i)]: the data handed to the plot for frame [i],
    [(Xs[:,i], Ys[:,i])]. *)
Definition updatefig (Xs_ Ys_ : matrix) (i : nat) : array * array :=
  (column Xs_ i, column Ys_ i).

(** A double that is a real number. *)
Definition finite (v : float) : Prop := exists r : R, v = Fin r.

(** ** The errors of Python floats

    Two statements compute on Python floats, not on arrays: the marker size
    of the cell "Graphical parameters" and the squares of the radii in the
    two density lines. *)

(** [D ** 2] raises [OverflowError] when the square leaves the doubles;
    for a double [D] that is from [|D| = 2^512] (about 1.34e154) on. *)
Definition pow_overflow : R := IZR (2 ^ 512).

Definition py_square (D : R) : result float :=
  if Rle_dec pow_overflow (Rabs D) then Raise OverflowError
  else Ok (fsquare (Fin D)).

(** [MusselSize = (1500.0/Length)] *)
Definition MusselSize (Length : R) : result float :=
  if Req_dec_T Length 0 then Raise ZeroDivisionError
  else Ok (fdiv (Fin 1500) (Fin Length)).

(** One timestep as Python runs it: nothing before the density lines can
    raise, [D1**2] is evaluated first, [D2**2] next, and the squares are
    those [step] divides by. *)
Definition checked_step (cfg : config) (u : nat -> R) (Diagonal : matrix)
           (st : state) (Time : nat) : result state :=
  _area1 <- py_square (D1 cfg) ;;
  _area2 <- py_square (D2 cfg) ;;
  Ok (step cfg u Diagonal st Time).

Definition checked_loop (cfg : config) (u : nat -> R) (Diagonal : matrix)
           (k : nat) (st : state) : result state :=
  fold_left (fun r Time => st' <- r ;; checked_step cfg u Diagonal st' Time)
            (seq 0 k) (Ok st).

(** The cells of the notebook run in order, from "Graphical parameters" to
    "Main simulation loop". *)
Definition run_all (cfg : config) (u : nat -> R) : result (matrix * matrix) :=
  _MusselSize <- MusselSize (Length cfg) ;;
  _Stepsize <- np_zeros (N cfg) ;;
  _Angle <- np_zeros (N cfg) ;;
  _Distance <- np_zeros2 (N cfg) (N cfg) ;;
  Diagonal0 <- np_zeros2 (N cfg) (N cfg) ;;
  let Diagonal := fill_diagonal Diagonal0 (Fin 1) in
  rx <- np_random_rand u (N cfg) 0 ;;
  let X0 := map (fun r => fmul (Fin r) (Fin (Length cfg))) (fst rx) in
  ry <- np_random_rand u (N cfg) (snd rx) ;;
  let Y0 := map (fun r => fmul (Fin r) (Fin (Length cfg))) (fst ry) in
  Xs0 <- np_zeros2 (N cfg) (EndTime cfg) ;;
  Ys0 <- np_zeros2 (N cfg) (EndTime cfg) ;;
  final <- checked_loop cfg u Diagonal (Z.to_nat (EndTime cfg))
             {| X := X0; Y := Y0; Xs := Xs0; Ys := Ys0; cursor := snd ry |} ;;
  Ok (Xs final, Ys final).

(** A configuration no larger than the notebook's own run. *)
Definition notebook_sized (cfg : config) : Prop :=
  (0 <= N cfg <= 2000)%Z /\ (0 <= EndTime cfg <= 300)%Z.

(** The configurations the specification calls invalid. *)
Definition invalid (cfg : config) : Prop :=
  N cfg = 0%Z \/ D1 cfg <= 0 \/ D2 cfg <= 0 \/ Length cfg <= 0.


(** Variates for a mussel that is thrown out of the arena by a step of 3
    and then takes a step of 1/4: the step draws are [exp(-3)] and
    [exp(-1/4)], the angle draws are 0. *)
Definition overshoot_walk (k : nat) : R :=
  match k with
  | 2%nat => exp (-3)
  | 4%nat => exp (-0.25)
  | 3%nat | 5%nat => 0
  | _ => 1 / 2
  end.

(** One mussel in an arena of length 1, two timesteps, [Beta = 1]. *)
Definition unit_arena : config :=
  {| N := 1; Length := 1; EndTime := 2;
     P1 := 100; P2 := -80; P3 := 0.999; D1 := 2; D2 := 6 |}.

(** * Properties *)

(** ** Proof support for the arithmetic of doubles *)

(** Decide every real comparison the goal branches on. *)
Ltac rdec :=
  repeat match goal with
         | |- context [Rlt_dec ?a ?b] => destruct (Rlt_dec a b)
         | |- context [Req_dec_T ?a ?b] => destruct (Req_dec_T a b)
         | H : context [Rlt_dec ?a ?b] |- _ => destruct (Rlt_dec a b)
         | H : context [Req_dec_T ?a ?b] |- _ => destruct (Req_dec_T a b)
         end.

Ltac fsolve :=
  simpl in *; rdec; simpl in *;
  try discriminate; try (exfalso; lra); try lra;
  try reflexivity; try (f_equal; lra).

Lemma flt_Fin (x y : R) : flt (Fin x) (Fin y) = true <-> x < y.
Proof.
  simpl. destruct (Rlt_dec x y); split; intros;
    try discriminate; auto; lra.
Qed.

(** ** The boundary conditions (C5, C9) *)

Lemma boundary_Fin (L x : R) :
  boundary L (Fin x) =
  Fin (x + L * (if Rlt_dec x 0 then 1 else 0)
         - L * (if Rlt_dec L x then 1 else 0)).
Proof. unfold boundary, fgt, fsub. simpl. rdec; simpl; f_equal; lra. Qed.

(** C5. The boundary correction is a function of one coordinate and of
    Length alone.  For an arena of length [Length >= 0] it maps [x] to
    [x + Length] when [x < 0], to [x - Length] when [x > Length], and leaves
    every other [x] unchanged; with [Length = 50] it maps -0.5 to 49.5 and
    55 to 5. *)
Theorem boundary_cases (L : R) (x : float) (HL : 0 <= L) :
  (flt x (Fin 0) = true -> boundary L x = fadd x (Fin L)) /\
  (fgt x (Fin L) = true -> boundary L x = fsub x (Fin L)) /\
  (flt x (Fin 0) = false -> fgt x (Fin L) = false -> boundary L x = x) /\
  boundary 50 (Fin (-0.5)) = Fin 49.5 /\
  boundary 50 (Fin 55) = Fin 5.
Proof.
  repeat split.
  - destruct x; unfold boundary, fgt, fsub; intros H; fsolve.
  - destruct x; unfold boundary, fgt, fsub; intros H; fsolve.
  - destruct x; unfold boundary, fgt, fsub; intros H1 H2; fsolve.
  - rewrite boundary_Fin. rdec; try lra; f_equal; lra.
  - rewrite boundary_Fin. rdec; try lra; f_equal; lra.
Qed.

Lemma boundary_cases_witness :
  0 <= 50 /\ boundary 50 (Fin (-3)) = fadd (Fin (-3)) (Fin 50).
Proof.
  split; [lra|].
  apply (boundary_cases 50 (Fin (-3))).
  - lra.
  - apply flt_Fin. lra.
Defined.

(** C9. The comparisons of the boundary correction are strict: for an arena
    of length [Length >= 0] a coordinate equal to 0 or equal to Length is
    left unchanged, every coordinate in [-Length, 2*Length] is corrected
    into the closed interval [0, Length], and Length itself is a value the
    correction returns although it is not in [0, Length). *)
Theorem boundary_closed_interval (L : R) (HL : 0 <= L) :
  boundary L (Fin 0) = Fin 0 /\
  boundary L (Fin L) = Fin L /\
  (forall x : R, - L <= x <= 2 * L ->
     exists y : R, boundary L (Fin x) = Fin y /\ 0 <= y <= L) /\
  (exists x : R, - L <= x <= 2 * L /\ boundary L (Fin x) = Fin L /\
     ~ (0 <= L < L)).
Proof.
  repeat split.
  - rewrite boundary_Fin. rdec; try lra; f_equal; lra.
  - rewrite boundary_Fin. rdec; try lra; f_equal; lra.
  - intros x Hx. rewrite boundary_Fin. eexists. split; [reflexivity|].
    rdec; lra.
  - exists L. split; [lra|]. split; [|lra].
    rewrite boundary_Fin. rdec; try lra; f_equal; lra.
Qed.

Lemma boundary_closed_interval_witness :
  0 <= 50 /\ boundary 50 (Fin 50) = Fin 50.
Proof.
  split; [lra|]. apply (boundary_closed_interval 50). lra.
Defined.

(** ** Arrays and matrices *)

Lemma map2_length {A B C : Type} (f : A -> B -> C) (a : list A) (b : list B) :
  length a = length b -> length (map2 f a b) = length a.
Proof.
  revert b. induction a as [|x a IH]; intros [|y b] H; simpl in *;
    try discriminate; auto.
Qed.

Lemma nth_map2 {A B C : Type} (f : A -> B -> C) (a : list A) (b : list B)
      (i : nat) (da : A) (db : B) (dc : C) :
  (i < length a)%nat -> (i < length b)%nat ->
  nth i (map2 f a b) dc = f (nth i a da) (nth i b db).
Proof.
  revert b i. induction a as [|x a IH]; intros [|y b] [|i] Ha Hb;
    simpl in *; try lia; auto.
  apply IH; lia.
Qed.

Lemma nth_map_in {A B : Type} (f : A -> B) (l : list A) (i : nat)
      (da : A) (db : B) :
  (i < length l)%nat -> nth i (map f l) db = f (nth i l da).
Proof.
  intros H. rewrite (nth_indep _ db (f da)) by (rewrite length_map; auto).
  apply map_nth.
Qed.

Lemma shape_row (M : matrix) (n m i : nat) :
  shape M n m -> (i < n)%nat -> length (nth i M []) = m.
Proof.
  intros [Hn Hrows] Hi. rewrite Forall_forall in Hrows.
  apply Hrows. apply nth_In. lia.
Qed.

Lemma shape_map (f : float -> float) (M : matrix) (n m : nat) :
  shape M n m -> shape (map (map f) M) n m.
Proof.
  intros [Hn Hrows]. split.
  - rewrite length_map. exact Hn.
  - rewrite Forall_forall in *. intros row Hin.
    apply in_map_iff in Hin. destruct Hin as [r [<- Hr]].
    rewrite length_map. auto.
Qed.

Lemma shape_map2 (f : float -> float -> float) (A B : matrix) (n m : nat) :
  shape A n m -> shape B n m -> shape (map2 (map2 f) A B) n m.
Proof.
  intros [HA HrA] [HB HrB]. split.
  - rewrite map2_length; congruence.
  - subst n. revert B HB HrB.
    induction A as [|a A IH]; intros [|b B] HB HrB; simpl in *;
      try discriminate; constructor.
    + inversion HrA; inversion HrB; subst. rewrite map2_length; congruence.
    + inversion HrA; inversion HrB; subst. apply IH; auto.
Qed.

Lemma entry_map (f : float -> float) (M : matrix) (n m i j : nat) :
  shape M n m -> (i < n)%nat -> (j < m)%nat ->
  entry (map (map f) M) i j = f (entry M i j).
Proof.
  intros HM Hi Hj. unfold entry.
  rewrite (nth_map_in (map f) M i [] []) by (destruct HM; lia).
  apply nth_map_in. rewrite (shape_row M n m); auto.
Qed.

Lemma entry_map2 (f : float -> float -> float) (A B : matrix)
      (n m i j : nat) :
  shape A n m -> shape B n m -> (i < n)%nat -> (j < m)%nat ->
  entry (map2 (map2 f) A B) i j = f (entry A i j) (entry B i j).
Proof.
  intros HA HB Hi Hj. unfold entry.
  rewrite (nth_map2 (map2 f) A B i [] [] [])
    by (destruct HA, HB; lia).
  apply nth_map2.
  - rewrite (shape_row A n m); auto.
  - rewrite (shape_row B n m); auto.
Qed.

(** ** The distance matrix (C8) *)

Lemma shape_outer_sub (x : array) :
  shape (outer_sub x) (length x) (length x).
Proof.
  split.
  - unfold outer_sub. apply length_map.
  - rewrite Forall_forall. intros row Hin. unfold outer_sub in Hin.
    apply in_map_iff in Hin. destruct Hin as [xi [<- _]]. apply length_map.
Qed.

Lemma entry_outer_sub (x : array) (i j : nat) :
  (i < length x)%nat -> (j < length x)%nat ->
  entry (outer_sub x) i j = fsub (nth i x NaN) (nth j x NaN).
Proof.
  intros Hi Hj. unfold entry, outer_sub.
  rewrite (nth_map_in _ x i NaN []) by auto.
  apply nth_map_in. auto.
Qed.

Lemma shape_dist (x y : array) :
  length x = length y -> shape (dist x y) (length x) (length x).
Proof.
  intros H. unfold dist, madd.
  apply shape_map, shape_map2; apply shape_map.
  - apply shape_outer_sub.
  - rewrite H. apply shape_outer_sub.
Qed.

Lemma entry_dist (x y : array) (i j : nat) :
  length x = length y -> (i < length x)%nat -> (j < length x)%nat ->
  entry (dist x y) i j =
  fsqrt (fadd (fsquare (fsub (nth i x NaN) (nth j x NaN)))
              (fsquare (fsub (nth i y NaN) (nth j y NaN)))).
Proof.
  intros H Hi Hj. unfold dist, madd.
  pose proof (shape_outer_sub x) as Sx.
  pose proof (shape_outer_sub y) as Sy. rewrite <- H in Sy.
  rewrite (entry_map _ _ (length x) (length x)); auto.
  2:{ apply shape_map2; apply shape_map; auto. }
  rewrite (entry_map2 _ _ _ (length x) (length x)); auto using shape_map.
  rewrite !(entry_map _ _ (length x) (length x)); auto.
  rewrite !entry_outer_sub; auto; congruence.
Qed.

Lemma fsub_swap (a b : float) : fsub b a = fneg (fsub a b).
Proof. destruct a, b; unfold fsub; simpl; auto. f_equal. lra. Qed.

Lemma fsquare_fneg (a : float) : fsquare (fneg a) = fsquare a.
Proof. destruct a; unfold fsquare; simpl; auto. f_equal. lra. Qed.

(** C8. For position arrays [x], [y] of one length and all indices [i],
    [j], the matrix returned by [dist] is symmetric, [d[i,j] = d[j,i]], and
    its diagonal is zero, [d[i,i] = 0]. *)
Theorem dist_symmetric_zero_diagonal (x y : list R) (i j : nat) :
  length x = length y -> (i < length x)%nat -> (j < length x)%nat ->
  let d := dist (map Fin x) (map Fin y) in
  entry d i j = entry d j i /\ entry d i i = Fin 0.
Proof.
  intros H Hi Hj d. subst d.
  assert (H' : length (map Fin x) = length (map Fin y))
    by (rewrite !length_map; auto).
  rewrite !entry_dist by (rewrite ?length_map; auto).
  split.
  - rewrite (fsub_swap (nth i (map Fin x) NaN)),
            (fsub_swap (nth i (map Fin y) NaN)).
    rewrite !fsquare_fneg. reflexivity.
  - rewrite (nth_map_in Fin x i 0 NaN) by auto.
    rewrite (nth_map_in Fin y i 0 NaN) by lia.
    simpl. rdec; try (exfalso; nra).
    f_equal.
    replace ((nth i x 0 + - nth i x 0) * (nth i x 0 + - nth i x 0) +
             (nth i y 0 + - nth i y 0) * (nth i y 0 + - nth i y 0))
      with 0 by ring.
    apply sqrt_0.
Qed.

Lemma dist_symmetric_zero_diagonal_witness :
  let d := dist (map Fin [0; 3]) (map Fin [0; 4]) in
  entry d 0 1 = entry d 1 0 /\ entry d 0 0 = Fin 0.
Proof.
  apply (dist_symmetric_zero_diagonal [0; 3] [0; 4] 0 1);
    simpl; auto with arith.
Defined.

(** ** [Diagonal] and the column sums *)

Lemma nth_repeat_in {A : Type} (a d : A) (m i : nat) :
  (i < m)%nat -> nth i (repeat a m) d = a.
Proof.
  revert i. induction m as [|m IH]; intros [|i] H; simpl; try lia; auto.
  apply IH. lia.
Qed.

Lemma length_upd {A : Type} (i : nat) (v : A) (l : list A) :
  length (upd i v l) = length l.
Proof.
  revert i. induction l as [|x l IH]; intros [|i]; simpl; auto.
Qed.

Lemma nth_upd_same {A : Type} (i : nat) (v d : A) (l : list A) :
  (i < length l)%nat -> nth i (upd i v l) d = v.
Proof.
  revert i. induction l as [|x l IH]; intros [|i] H; simpl in *;
    try lia; auto.
  apply IH. lia.
Qed.

Lemma nth_upd_other {A : Type} (i j : nat) (v d : A) (l : list A) :
  i <> j -> nth j (upd i v l) d = nth j l d.
Proof.
  revert i j. induction l as [|x l IH]; intros [|i] [|j] H; simpl;
    try lia; auto.
Qed.

Lemma shape_zeros2 (n m : nat) : shape (zeros2 n m) n m.
Proof.
  split.
  - apply repeat_length.
  - rewrite Forall_forall. intros row Hin.
    apply repeat_spec in Hin. subst. apply repeat_length.
Qed.

Lemma entry_zeros2 (n m i j : nat) :
  (i < n)%nat -> (j < m)%nat -> entry (zeros2 n m) i j = Fin 0.
Proof.
  intros Hi Hj. unfold entry, zeros2.
  rewrite nth_repeat_in by auto. apply nth_repeat_in. auto.
Qed.

Lemma shape_Diagonal (n : nat) : shape (Diagonal n) n n.
Proof.
  unfold Diagonal, fill_diagonal.
  destruct (shape_zeros2 n n) as [Hn Hrows]. split.
  - rewrite map2_length; rewrite length_seq; auto.
  - rewrite Forall_forall. intros row Hin.
    destruct (In_nth _ _ [] Hin) as [i [Hi Hrow]].
    rewrite map2_length in Hi by (rewrite length_seq; auto).
    rewrite length_seq in Hi.
    rewrite (nth_map2 _ _ _ i O [] []) in Hrow
      by (rewrite ?length_seq; lia).
    subst row. rewrite length_upd.
    apply (shape_row _ n n); [split; auto | lia].
Qed.

Lemma entry_Diagonal (n i j : nat) :
  (i < n)%nat -> (j < n)%nat -> entry (Diagonal n) i j = Fin (delta i j).
Proof.
  intros Hi Hj. unfold entry, Diagonal, fill_diagonal.
  destruct (shape_zeros2 n n) as [Hn Hrows].
  rewrite (nth_map2 _ _ _ i O [] [])
    by (rewrite ?length_seq; lia).
  rewrite seq_nth by lia. simpl.
  unfold delta. destruct (Nat.eqb_spec i j) as [->|Hne].
  - rewrite nth_upd_same; auto.
    rewrite (shape_row _ n n); [auto | split; auto | auto].
  - rewrite nth_upd_other by auto. apply entry_zeros2; auto.
Qed.

Lemma column_as_entries (M : matrix) (j : nat) :
  column M j = map (fun i => entry M i j) (seq 0 (length M)).
Proof.
  unfold column. apply (nth_ext _ _ NaN NaN).
  - rewrite !length_map, length_seq. reflexivity.
  - intros i Hi. rewrite length_map in Hi.
    rewrite (nth_map_in _ M i [] NaN) by auto.
    rewrite (nth_map_in _ _ i O NaN) by (rewrite length_seq; auto).
    rewrite seq_nth by auto. reflexivity.
Qed.

Lemma fold_rows_nth (M : matrix) (acc : array) (m j : nat) :
  Forall (fun row => length row = m) M -> length acc = m -> (j < m)%nat ->
  nth j (fold_left (map2 fadd) M acc) NaN =
  fold_left fadd (column M j) (nth j acc NaN).
Proof.
  revert acc. induction M as [|row M IH]; intros acc HM Hacc Hj; simpl; auto.
  inversion HM; subst.
  rewrite IH; auto.
  - rewrite (nth_map2 fadd acc row j NaN NaN NaN) by lia. reflexivity.
  - rewrite map2_length; lia.
Qed.

(** Entry [j] of [M.sum(axis=0)] adds up column [j]. *)
Lemma nth_sum_axis0 (M : matrix) (n m j : nat) :
  shape M n m -> (0 < n)%nat -> (j < m)%nat ->
  nth j (sum_axis0 M) NaN = fold_left fadd (column M j) (Fin 0).
Proof.
  intros [Hn Hrows] Hpos Hj. unfold sum_axis0.
  assert (Hc : ncols M = m).
  { destruct M as [|row M]; simpl in *; [lia|]. inversion Hrows; auto. }
  rewrite (fold_rows_nth M _ m j); auto.
  - unfold zeros. rewrite nth_repeat_in by lia. reflexivity.
  - rewrite Hc. apply repeat_length.
Qed.

Lemma length_sum_axis0 (M : matrix) (n m : nat) :
  shape M n m -> (0 < n)%nat -> length (sum_axis0 M) = m.
Proof.
  intros [Hn Hrows] Hpos. unfold sum_axis0.
  assert (Hc : ncols M = m).
  { destruct M as [|row M]; simpl in *; [lia|]. inversion Hrows; auto. }
  rewrite Hc. clear Hc Hn Hpos.
  assert (Hz : length (zeros m) = m) by apply repeat_length.
  revert Hz. generalize (zeros m).
  induction M as [|row M IH]; intros acc Hacc; simpl; auto.
  inversion Hrows; subst. apply IH; auto.
  rewrite map2_length; lia.
Qed.

Lemma fold_fadd_Fin (rs : list R) (a : R) :
  fold_left fadd (map Fin rs) (Fin a) = Fin (a + Rsum rs).
Proof.
  revert a. induction rs as [|r rs IH]; intros a; simpl.
  - f_equal. lra.
  - rewrite IH. f_equal. lra.
Qed.

Lemma Rsum_delta (j a n : nat) :
  Rsum (map (fun i => delta i j) (seq a n)) =
  if ((a <=? j) && (j <? a + n))%nat then 1 else 0.
Proof.
  revert a. induction n as [|n IH]; intros a; simpl.
  - destruct (Nat.leb_spec a j), (Nat.ltb_spec j (a + 0)); simpl; auto; lia.
  - rewrite IH. unfold delta.
    destruct (Nat.eqb_spec a j), (Nat.leb_spec (S a) j),
      (Nat.ltb_spec j (S a + n)), (Nat.leb_spec a j),
      (Nat.ltb_spec j (a + S n)); simpl; try lia; lra.
Qed.

Lemma Rsum_ext {A : Type} (f g : A -> R) (l : list A) :
  (forall i, In i l -> f i = g i) -> Rsum (map f l) = Rsum (map g l).
Proof.
  intros H. f_equal. apply map_ext_in. exact H.
Qed.

Lemma Rsum_minus {A : Type} (f g : A -> R) (l : list A) :
  Rsum (map (fun i => f i - g i) l) = Rsum (map f l) - Rsum (map g l).
Proof. induction l as [|x l IH]; simpl; [lra|]. rewrite IH. lra. Qed.

(** ** Neighbour counts and densities *)

Lemma shape_Nr_In_Dist (D : R) (x y : array) :
  length x = length y ->
  shape (Nr_In_Dist D (dist x y) (Diagonal (length x)))
        (length x) (length x).
Proof.
  intros H. unfold Nr_In_Dist.
  apply shape_map2; [apply shape_dist; auto | apply shape_Diagonal].
Qed.

Lemma entry_Nr_In_Dist (D : R) (x y : array) (i j : nat) :
  length x = length y -> (i < length x)%nat -> (j < length x)%nat ->
  entry (Nr_In_Dist D (dist x y) (Diagonal (length x))) i j =
  Fin ((if flt (entry (dist x y) i j) (Fin D) then 1 else 0) - delta i j).
Proof.
  intros H Hi Hj. unfold Nr_In_Dist.
  rewrite (entry_map2 _ _ _ (length x) (length x));
    auto using shape_dist, shape_Diagonal.
  rewrite entry_Diagonal by auto.
  unfold fsub, of_bool. simpl. f_equal. lra.
Qed.

(** The count of agent [j]: column [j] of [Nr_In_Dist] added up. *)
Lemma nth_count (D : R) (x y : array) (j : nat) :
  length x = length y -> (j < length x)%nat ->
  nth j (sum_axis0 (Nr_In_Dist D (dist x y) (Diagonal (length x)))) NaN =
  Fin (Rsum (map (fun i =>
                    (if flt (entry (dist x y) i j) (Fin D) then 1 else 0)
                    - delta i j)
                 (seq 0 (length x)))).
Proof.
  intros H Hj.
  pose proof (shape_Nr_In_Dist D x y H) as HS.
  rewrite (nth_sum_axis0 _ (length x) (length x)) by (auto; lia).
  rewrite column_as_entries. destruct HS as [-> _].
  rewrite (map_ext_in _
    (fun i => Fin ((if flt (entry (dist x y) i j) (Fin D) then 1 else 0)
                   - delta i j))).
  2:{ intros i Hi. apply in_seq in Hi.
      apply entry_Nr_In_Dist; auto; lia. }
  rewrite <- (map_map _ Fin). rewrite fold_fadd_Fin. f_equal. lra.
Qed.

Lemma nth_Density_In_Dist (D : R) (x y : array) (j : nat) :
  length x = length y -> (j < length x)%nat ->
  let Nr := Nr_In_Dist D (dist x y) (Diagonal (length x)) in
  nth j (Density_In_Dist D Nr) NaN =
  fdiv (nth j (sum_axis0 Nr) NaN) (Fin (D * D * PI)).
Proof.
  intros H Hj Nr. unfold Density_In_Dist.
  rewrite (nth_map_in _ _ j NaN NaN).
  - reflexivity.
  - rewrite (length_sum_axis0 _ (length x) (length x)); auto; try lia.
    apply shape_Nr_In_Dist; auto.
Qed.

(** A square root is never below a radius that is not positive. *)
Lemma fsqrt_not_lt (a : float) (D : R) :
  D <= 0 -> flt (fsqrt a) (Fin D) = false.
Proof.
  intros HD. destruct a; simpl; auto.
  destruct (Rlt_dec r 0); simpl; auto.
  pose proof (sqrt_pos r). destruct (Rlt_dec (sqrt r) D); auto. lra.
Qed.

Lemma count_nonpositive_radius (D : R) (x y : array) (j : nat) :
  length x = length y -> D <= 0 -> (j < length x)%nat ->
  nth j (sum_axis0 (Nr_In_Dist D (dist x y) (Diagonal (length x)))) NaN =
  Fin (-1).
Proof.
  intros H HD Hj. rewrite nth_count by auto. f_equal.
  rewrite (Rsum_ext _ (fun i => 0 - delta i j)).
  - rewrite Rsum_minus, Rsum_delta.
    replace ((0 <=? j) && (j <? 0 + length x))%nat with true.
    + assert (Hz : forall l : list nat, Rsum (map (fun _ => 0) l) = 0)
        by (induction l; simpl; lra).
      rewrite Hz. lra.
    + symmetry. apply andb_true_iff. split.
      * apply Nat.leb_le. lia.
      * apply Nat.ltb_lt. lia.
  - intros i Hi. apply in_seq in Hi.
    rewrite entry_dist by (auto; lia).
    rewrite fsqrt_not_lt by auto. reflexivity.
Qed.

Lemma density_nonpositive_radius (D : R) (x y : array) (j : nat) :
  length x = length y -> D <= 0 -> (j < length x)%nat ->
  flt (nth j (Density_In_Dist D
                (Nr_In_Dist D (dist x y) (Diagonal (length x)))) NaN)
      (Fin 0) = true.
Proof.
  intros H HD Hj. rewrite nth_Density_In_Dist by auto.
  rewrite count_nonpositive_radius by auto.
  simpl. destruct (Req_dec_T (D * D * PI) 0) as [E|E].
  - unfold signed_inf. rdec; try lra. reflexivity.
  - apply flt_Fin. pose proof PI_RGT_0.
    assert (0 < D * D * PI) by (apply Rmult_lt_0_compat; nra).
    apply Rdiv_neg_pos; lra.
Qed.

Lemma entry_dist_Fin (x y : list R) (i j : nat) :
  length x = length y -> (i < length x)%nat -> (j < length x)%nat ->
  entry (dist (map Fin x) (map Fin y)) i j = Fin (euclid x y i j).
Proof.
  intros H Hi Hj.
  rewrite entry_dist by (rewrite ?length_map; auto).
  rewrite !(nth_map_in Fin x _ 0 NaN) by auto.
  rewrite !(nth_map_in Fin y _ 0 NaN) by lia.
  simpl.
  assert (Hsq : forall a b : R, 0 <= a * a + b * b) by (intros; nra).
  match goal with
  | |- context [Rlt_dec ?s 0] =>
      destruct (Rlt_dec s 0) as [Hneg|_];
      [exfalso; revert Hneg; apply Rle_not_lt, Hsq|]
  end.
  unfold euclid. f_equal. f_equal. ring.
Qed.

Lemma euclid_self (x y : list R) (j : nat) : euclid x y j j = 0.
Proof.
  unfold euclid.
  replace ((nth j x 0 - nth j x 0) ^ 2 + (nth j y 0 - nth j y 0) ^ 2)
    with 0 by ring.
  apply sqrt_0.
Qed.

Lemma Rsum_count {A : Type} (q : A -> bool) (l : list A) :
  Rsum (map (fun i => if q i then 1 else 0) l) = INR (length (filter q l)).
Proof.
  induction l as [|a l IH]; simpl; auto.
  rewrite IH. destruct (q a); simpl length; rewrite ?S_INR; lra.
Qed.

Lemma count_positive_radius (D : R) (x y : list R) (j : nat) :
  length x = length y -> 0 < D -> (j < length x)%nat ->
  nth j (sum_axis0 (Nr_In_Dist D (dist (map Fin x) (map Fin y))
                               (Diagonal (length x)))) NaN =
  Fin (INR (neighbours x y D j)).
Proof.
  intros H HD Hj.
  pose proof (nth_count D (map Fin x) (map Fin y) j) as HC.
  rewrite !length_map in HC. rewrite HC by auto. clear HC. f_equal.
  unfold neighbours. rewrite <- Rsum_count. apply Rsum_ext.
  intros i Hi. apply in_seq in Hi.
  rewrite entry_dist_Fin by (auto; lia).
  unfold delta, Rltb. simpl.
  destruct (Nat.eqb_spec i j) as [->|Hne]; simpl.
  - rewrite euclid_self. destruct (Rlt_dec 0 D); lra.
  - destruct (Rlt_dec (euclid x y i j) D); lra.
Qed.

(** ** Shapes along the run *)

Lemma length_sum_axis0_square (M : matrix) (n : nat) :
  shape M n n -> length (sum_axis0 M) = n.
Proof.
  intros HS. destruct n as [|n].
  - destruct HS as [Hn _]. destruct M; simpl in *; [reflexivity | lia].
  - apply (length_sum_axis0 M (S n) (S n)); auto; lia.
Qed.

Lemma length_Density_In_Dist (D : R) (x y : array) :
  length x = length y ->
  length (Density_In_Dist D (Nr_In_Dist D (dist x y) (Diagonal (length x))))
  = length x.
Proof.
  intros H. unfold Density_In_Dist. rewrite length_map.
  apply length_sum_axis0_square, shape_Nr_In_Dist, H.
Qed.

Lemma length_draws (u : nat -> R) (c n : nat) : length (draws u c n) = n.
Proof. unfold draws. rewrite length_map. apply length_seq. Qed.

Section Shapes.

Variable cfg : config.
Variable u : nat -> R.

Let n := agents cfg.
Let Dg := Diagonal (agents cfg).

Lemma length_Beta_at (st : state) :
  well_shaped cfg st -> length (Beta_at cfg Dg st) = n.
Proof.
  intros (HX & HY & _). unfold Beta_at, Beta.
  unfold Density_In_Dist1, Density_In_Dist2, Nr_In_Dist1, Nr_In_Dist2,
    Distance, Dg, n.
  rewrite <- HX in *.
  rewrite map2_length; rewrite !length_Density_In_Dist; auto.
Qed.

Lemma length_Stepsize_at (st : state) :
  well_shaped cfg st -> length (Stepsize_at cfg u Dg st) = n.
Proof.
  intros H. unfold Stepsize_at, Stepsize.
  rewrite map2_length; rewrite length_Beta_at; auto.
  rewrite length_draws. reflexivity.
Qed.

Lemma length_Angle_at (st : state) : length (Angle_at cfg u st) = n.
Proof. unfold Angle_at, Angle. rewrite length_map. apply length_draws. Qed.

Lemma length_dX (st : state) :
  well_shaped cfg st -> length (dX cfg u Dg st) = n.
Proof.
  intros H. unfold dX, step_sin.
  rewrite map2_length; rewrite length_Angle_at; auto.
  rewrite length_Stepsize_at; auto.
Qed.

Lemma length_dY (st : state) :
  well_shaped cfg st -> length (dY cfg u Dg st) = n.
Proof.
  intros H. unfold dY, step_cos.
  rewrite map2_length; rewrite length_Angle_at; auto.
  rewrite length_Stepsize_at; auto.
Qed.

Lemma shape_set_col (t : nat) (col : array) (M : matrix) (r c : nat) :
  shape M r c -> length col = r -> shape (set_col t col M) r c.
Proof.
  intros [Hr Hrows] Hcol. unfold set_col. split.
  - rewrite map2_length; congruence.
  - subst r. revert col Hcol.
    induction M as [|row M IH]; intros [|v col] Hcol; simpl in *;
      try discriminate; constructor.
    + inversion Hrows; subst. apply length_upd.
    + inversion Hrows; subst. apply IH; auto.
Qed.

Lemma well_shaped_step (st : state) (t : nat) :
  well_shaped cfg st -> well_shaped cfg (step cfg u Dg st t).
Proof.
  intros H. pose proof H as (HX & HY & HXs & HYs).
  assert (HX' : length (map (boundary (Length cfg))
                            (map2 fadd (X st) (dX cfg u Dg st))) = n).
  { rewrite length_map, map2_length; auto. rewrite length_dX; auto. }
  assert (HY' : length (map (boundary (Length cfg))
                            (map2 fadd (Y st) (dY cfg u Dg st))) = n).
  { rewrite length_map, map2_length; auto. rewrite length_dY; auto. }
  unfold well_shaped, step; simpl.
  split; [exact HX'|]. split; [exact HY'|].
  split; apply shape_set_col; auto.
Qed.

Lemma well_shaped_initial : well_shaped cfg (initial cfg u).
Proof.
  unfold well_shaped, initial; simpl.
  rewrite !length_map, !length_draws.
  repeat split; try apply shape_zeros2; try apply repeat_length.
Qed.

Lemma state_at_S (t : nat) :
  state_at cfg u (S t) = step cfg u Dg (state_at cfg u t) t.
Proof.
  unfold state_at, loop. rewrite seq_S, fold_left_app. reflexivity.
Qed.

Lemma well_shaped_state_at (t : nat) : well_shaped cfg (state_at cfg u t).
Proof.
  induction t as [|t IH].
  - apply well_shaped_initial.
  - rewrite state_at_S. apply well_shaped_step, IH.
Qed.

Lemma cursor_state_at (t : nat) :
  cursor (state_at cfg u t) = (2 * n + 2 * n * t)%nat.
Proof.
  induction t as [|t IH].
  - unfold state_at, loop, initial, n, agents; simpl. lia.
  - rewrite state_at_S. unfold step; simpl. rewrite IH.
    unfold n, agents. ring.
Qed.

End Shapes.

(** ** The allocations: when the notebook raises *)

Lemma run_ok (cfg : config) (u : nat -> R) :
  (0 <= N cfg)%Z -> (0 <= EndTime cfg)%Z ->
  run cfg u = Ok (Xs (state_at cfg u (timesteps cfg)),
                  Ys (state_at cfg u (timesteps cfg))).
Proof.
  intros HN HT. unfold run, np_zeros, np_zeros2, np_random_rand.
  assert (EN : (N cfg <? 0)%Z = false) by (apply Z.ltb_ge; auto).
  assert (ET : (EndTime cfg <? 0)%Z = false) by (apply Z.ltb_ge; auto).
  rewrite EN, ET. simpl. reflexivity.
Qed.

Lemma run_raise (cfg : config) (u : nat -> R) :
  (N cfg < 0)%Z \/ (EndTime cfg < 0)%Z -> run cfg u = Raise ValueError.
Proof.
  intros H. unfold run, np_zeros, np_zeros2, np_random_rand.
  destruct (Z.ltb_spec (N cfg) 0) as [HN|HN]; simpl; auto.
  destruct (Z.ltb_spec (EndTime cfg) 0) as [HT|HT]; simpl; auto.
  lia.
Qed.

(** ** Densities at real positions *)

Lemma nth_density_positive_radius (D : R) (x y : list R) (j : nat) :
  length x = length y -> 0 < D -> (j < length x)%nat ->
  nth j (Density_In_Dist D
           (Nr_In_Dist D (dist (map Fin x) (map Fin y))
                       (Diagonal (length x)))) NaN =
  Fin (INR (neighbours x y D j) / (PI * D ^ 2)).
Proof.
  intros H HD Hj.
  pose proof (nth_Density_In_Dist D (map Fin x) (map Fin y) j) as HN.
  pose proof (count_positive_radius D x y j) as HC.
  rewrite !length_map in HN. simpl in HN.
  rewrite HN, HC by auto.
  pose proof PI_RGT_0.
  assert (0 < D * D * PI) by (apply Rmult_lt_0_compat; nra).
  simpl. destruct (Req_dec_T (D * D * PI) 0); [lra|].
  f_equal. f_equal. ring.
Qed.

(** ** The scale parameter (C1) *)

Lemma length_Density_In_Dist1 (cfg : config) (st : state) :
  well_shaped cfg st ->
  length (Density_In_Dist1 cfg (Diagonal (agents cfg)) st) = agents cfg.
Proof.
  intros (HX & HY & _).
  unfold Density_In_Dist1, Nr_In_Dist1, Distance.
  rewrite <- HX. rewrite length_Density_In_Dist; congruence.
Qed.

Lemma length_Density_In_Dist2 (cfg : config) (st : state) :
  well_shaped cfg st ->
  length (Density_In_Dist2 cfg (Diagonal (agents cfg)) st) = agents cfg.
Proof.
  intros (HX & HY & _).
  unfold Density_In_Dist2, Nr_In_Dist2, Distance.
  rewrite <- HX. rewrite length_Density_In_Dist; congruence.
Qed.

Lemma Beta1_agrees_with_spec (p1 p2 p3 s : R) (d1 d2 : float) :
  fadd (fmul (Fin p1) d1) (fmul (Fin p2) d2) = Fin s ->
  0.001 <= s -> 0 <= p3 ->
  Beta1 p1 p2 p3 d1 d2 = Beta_spec p1 p2 p3 d1 d2.
Proof.
  intros Hs Hge Hp. unfold Beta1, Beta_spec. rewrite Hs. simpl.
  destruct (Rlt_dec 0.001 s), (Rlt_dec 0.001 (s + p3)); simpl;
    try (exfalso; lra); rdec; try lra; try reflexivity;
    f_equal; f_equal; lra.
Qed.

Lemma nth_Beta_at (cfg : config) (st : state) (i : nat) :
  well_shaped cfg st -> (i < agents cfg)%nat ->
  let Dg := Diagonal (agents cfg) in
  nth i (Beta_at cfg Dg st) NaN =
  Beta1 (P1 cfg) (P2 cfg) (P3 cfg)
        (nth i (Density_In_Dist1 cfg Dg st) NaN)
        (nth i (Density_In_Dist2 cfg Dg st) NaN).
Proof.
  intros HW Hi Dg. unfold Beta_at, Beta. apply nth_map2.
  - unfold Dg. rewrite length_Density_In_Dist1; auto.
  - unfold Dg. rewrite length_Density_In_Dist2; auto.
Qed.

(** C1 (as the notebook computes it).  At every timestep and for every
    agent, Beta equals [1 / (max(0.001, P1*d1 + P2*d2) + P3)] for the two
    densities [d1], [d2] of the agent: the floor at 0.001 applies to the
    density part only and P3 is added after it.  The value coincides with
    [1 / max(0.001, P1*d1 + P2*d2 + P3)] whenever [P1*d1 + P2*d2 >= 0.001]
    and [P3 >= 0]. *)
Theorem Beta_floors_density_part_only
        (cfg : config) (u : nat -> R) (t i : nat) :
  (i < agents cfg)%nat ->
  let st := state_at cfg u t in
  let Dg := Diagonal (agents cfg) in
  let d1 := nth i (Density_In_Dist1 cfg Dg st) NaN in
  let d2 := nth i (Density_In_Dist2 cfg Dg st) NaN in
  let score := fadd (fmul (Fin (P1 cfg)) d1) (fmul (Fin (P2 cfg)) d2) in
  nth i (Beta_at cfg Dg st) NaN =
    fdiv (Fin 1) (fadd (fmaximum (Fin 0.001) score) (Fin (P3 cfg))) /\
  (forall s : R, score = Fin s -> 0.001 <= s -> 0 <= P3 cfg ->
     nth i (Beta_at cfg Dg st) NaN =
     Beta_spec (P1 cfg) (P2 cfg) (P3 cfg) d1 d2).
Proof.
  intros Hi st Dg d1 d2 score.
  pose proof (well_shaped_state_at cfg u t) as HW. fold st in HW.
  assert (HB : nth i (Beta_at cfg Dg st) NaN =
               Beta1 (P1 cfg) (P2 cfg) (P3 cfg) d1 d2)
    by (apply nth_Beta_at; auto).
  split.
  - exact HB.
  - intros s Hs Hge Hp. rewrite HB.
    apply (Beta1_agrees_with_spec _ _ _ s); auto.
Qed.

Lemma Beta_floors_density_part_only_witness :
  let cfg := notebook 2 300 in
  (0 < agents cfg)%nat /\
  nth 0 (Beta_at cfg (Diagonal (agents cfg)) (state_at cfg halves 0)) NaN =
  fdiv (Fin 1)
    (fadd (fmaximum (Fin 0.001)
             (fadd (fmul (Fin (P1 cfg))
                      (nth 0 (Density_In_Dist1 cfg (Diagonal (agents cfg))
                                (state_at cfg halves 0)) NaN))
                   (fmul (Fin (P2 cfg))
                      (nth 0 (Density_In_Dist2 cfg (Diagonal (agents cfg))
                                (state_at cfg halves 0)) NaN))))
          (Fin (P3 cfg))).
Proof.
  intros cfg.
  assert (H : (0 < agents cfg)%nat) by (unfold agents; simpl; lia).
  split; [exact H|].
  apply (Beta_floors_density_part_only cfg halves 0 0 H).
Defined.

(** ** Determinism (C7) *)

Lemma draws_ext (u1 u2 : nat -> R) (c n : nat) :
  (forall k, (c <= k < c + n)%nat -> u1 k = u2 k) ->
  draws u1 c n = draws u2 c n.
Proof.
  intros H. unfold draws. apply map_ext_in.
  intros k Hk. apply in_seq in Hk. apply H. lia.
Qed.

Lemma step_ext (cfg : config) (u1 u2 : nat -> R) (Dg : matrix)
      (st : state) (t : nat) :
  (forall k, (cursor st <= k < cursor st + 2 * agents cfg)%nat ->
             u1 k = u2 k) ->
  step cfg u1 Dg st t = step cfg u2 Dg st t.
Proof.
  intros H.
  assert (HS : Stepsize_at cfg u1 Dg st = Stepsize_at cfg u2 Dg st).
  { unfold Stepsize_at. f_equal. apply draws_ext.
    intros k Hk. apply H. unfold agents. lia. }
  assert (HA : Angle_at cfg u1 st = Angle_at cfg u2 st).
  { unfold Angle_at. f_equal. apply draws_ext.
    intros k Hk. apply H. unfold agents. lia. }
  unfold step, dX, dY. rewrite HS, HA. reflexivity.
Qed.

Lemma initial_ext (cfg : config) (u1 u2 : nat -> R) :
  (forall k, (k < 2 * agents cfg)%nat -> u1 k = u2 k) ->
  initial cfg u1 = initial cfg u2.
Proof.
  intros H. unfold initial.
  rewrite (draws_ext u1 u2 0 (Z.to_nat (N cfg)))
    by (intros k Hk; apply H; unfold agents; lia).
  rewrite (draws_ext u1 u2 (Z.to_nat (N cfg)) (Z.to_nat (N cfg)))
    by (intros k Hk; apply H; unfold agents; lia).
  reflexivity.
Qed.

Lemma state_at_ext (cfg : config) (u1 u2 : nat -> R) (t : nat) :
  (forall k, (k < 2 * agents cfg + 2 * agents cfg * t)%nat ->
             u1 k = u2 k) ->
  state_at cfg u1 t = state_at cfg u2 t.
Proof.
  induction t as [|t IH]; intros H.
  - unfold state_at, loop. simpl. apply initial_ext.
    intros k Hk. apply H. lia.
  - rewrite !state_at_S. rewrite <- IH by (intros k Hk; apply H; nia).
    apply step_ext. intros k Hk. apply H.
    rewrite cursor_state_at in Hk. nia.
Qed.

(** C7. The whole run is a function of the configuration and of the
    variates the seeded generator delivers: two runs with the same
    configuration whose generators deliver the same first
    [2*N + 2*N*EndTime] variates (as two generators with one seed do)
    produce identical results, histories Xs and Ys included. *)
Theorem run_deterministic (cfg : config) (u1 u2 : nat -> R) :
  (forall k, (k < draws_needed cfg)%nat -> u1 k = u2 k) ->
  run cfg u1 = run cfg u2.
Proof.
  intros H.
  destruct (Z.ltb_spec (N cfg) 0) as [HN|HN].
  { rewrite !run_raise; auto. }
  destruct (Z.ltb_spec (EndTime cfg) 0) as [HT|HT].
  { rewrite !run_raise; auto. }
  rewrite !run_ok by auto.
  rewrite (state_at_ext cfg u1 u2 (timesteps cfg)); auto.
Qed.

Lemma run_deterministic_witness :
  let cfg := notebook 2 3 in
  let u2 := fun k : nat => if (k <? 16)%nat then 1 / 2 else 0 in
  run cfg halves = run cfg u2.
Proof.
  intros cfg u2. apply (run_deterministic cfg halves u2).
  intros k Hk. unfold halves, u2.
  assert (Hd : draws_needed cfg = 16%nat) by reflexivity.
  rewrite Hd in Hk.
  destruct (Nat.ltb_spec k 16); [reflexivity | lia].
Defined.

(** ** The history arrays *)

Lemma entry_set_col_same (t : nat) (col : array) (M : matrix)
      (r c i : nat) :
  shape M r c -> length col = r -> (i < r)%nat -> (t < c)%nat ->
  entry (set_col t col M) i t = nth i col NaN.
Proof.
  intros HM Hcol Hi Ht. unfold entry, set_col.
  rewrite (nth_map2 _ M col i [] NaN []) by (destruct HM; lia).
  apply nth_upd_same. rewrite (shape_row M r c); auto.
Qed.

Lemma entry_set_col_other (t t' : nat) (col : array) (M : matrix)
      (r c i : nat) :
  shape M r c -> length col = r -> (i < r)%nat -> t <> t' ->
  entry (set_col t col M) i t' = entry M i t'.
Proof.
  intros HM Hcol Hi Ht. unfold entry, set_col.
  rewrite (nth_map2 _ M col i [] NaN []) by (destruct HM; lia).
  apply nth_upd_other. auto.
Qed.

(** Column [t] of the histories holds the positions timestep [t] ended
    with, and later timesteps do not touch it. *)
Lemma history_entry (cfg : config) (u : nat -> R) (k t i : nat) :
  (t < k)%nat -> (k <= timesteps cfg)%nat -> (i < agents cfg)%nat ->
  entry (Xs (state_at cfg u k)) i t = nth i (X (state_at cfg u (S t))) NaN /\
  entry (Ys (state_at cfg u k)) i t = nth i (Y (state_at cfg u (S t))) NaN.
Proof.
  intros Htk Hk Hi. induction k as [|k IH]; [lia|].
  destruct (well_shaped_state_at cfg u k) as (HX & HY & HXs & HYs).
  destruct (well_shaped_state_at cfg u (S k)) as (HX' & HY' & _).
  destruct (Nat.eq_dec t k) as [->|Hne].
  - rewrite state_at_S in *. unfold step in *; simpl in *.
    split; apply (entry_set_col_same _ _ _ (agents cfg) (timesteps cfg));
      auto; lia.
  - assert (Hlt : (t < k)%nat) by lia.
    destruct (IH Hlt ltac:(lia)) as [IHX IHY].
    rewrite <- IHX, <- IHY. rewrite (state_at_S cfg u k).
    unfold step; simpl.
    rewrite state_at_S in HX', HY'. unfold step in HX', HY'; simpl in *.
    split; apply (entry_set_col_other _ _ _ _ (agents cfg) (timesteps cfg));
      auto.
Qed.

(** ** Positions stay in the arena *)

Lemma boundary_into_closed_arena (L x : R) :
  0 <= L -> - L <= x <= 2 * L -> in_closed_arena L (boundary L (Fin x)).
Proof.
  intros HL Hx. rewrite boundary_Fin. eexists. split; [reflexivity|].
  rdec; lra.
Qed.

Lemma nth_draws (u : nat -> R) (c n i : nat) :
  (i < n)%nat -> nth i (draws u c n) 0 = u (c + i)%nat.
Proof.
  intros Hi. unfold draws.
  rewrite (nth_map_in u _ i O 0) by (rewrite length_seq; auto).
  rewrite seq_nth by auto. reflexivity.
Qed.

Lemma nth_Angle_at (cfg : config) (u : nat -> R) (st : state) (i : nat) :
  (i < agents cfg)%nat ->
  nth i (Angle_at cfg u st) NaN =
  Fin (u (cursor st + agents cfg + i)%nat * 360).
Proof.
  intros Hi. unfold Angle_at, Angle.
  rewrite (nth_map_in _ _ i 0 NaN) by (rewrite length_draws; auto).
  rewrite nth_draws by auto. reflexivity.
Qed.

(** The displacement of an agent along one axis is a fraction, between -1
    and 1, of its step. *)
Lemma displacement_within (L s : R) (trig : R) :
  -1 <= trig <= 1 -> Rabs s <= L -> - L <= trig * s <= L.
Proof.
  intros Ht Hs. unfold Rabs in Hs. destruct (Rcase_abs s); nra.
Qed.

Lemma moved_into_closed_arena (L : R) (x ang s : float) (a : R)
      (trig : R -> R) :
  0 <= L -> in_closed_arena L x -> ang = Fin a -> step_within L s ->
  (forall z, -1 <= trig z <= 1) ->
  in_closed_arena L
    (boundary L
       (fadd x
          (fmul (match fmul (fdiv ang (Fin 180)) np_pi with
                 | Fin z => Fin (trig z)
                 | _ => NaN
                 end) s))).
Proof.
  intros HL (r & -> & Hr) -> (d & -> & Hd) Htrig. simpl.
  destruct (Req_dec_T 180 0) as [E|_]; [lra|]. simpl.
  apply boundary_into_closed_arena; auto.
  pose proof (displacement_within L d (trig (a / 180 * PI))
                (Htrig _) Hd).
  lra.
Qed.

Section Arena.

Variable cfg : config.
Variable u : nat -> R.

Let n := agents cfg.
Let L := Length cfg.
Let Dg := Diagonal (agents cfg).

Hypothesis Length_pos : 0 < L.
Hypothesis uniform : forall k, 0 <= u k < 1.

Lemma initial_in_arena (i : nat) :
  (i < n)%nat ->
  in_closed_arena L (nth i (X (initial cfg u)) NaN) /\
  in_closed_arena L (nth i (Y (initial cfg u)) NaN).
Proof.
  intros Hi. unfold initial; simpl. fold (agents cfg). fold n. fold L.
  rewrite !(nth_map_in _ _ i 0 NaN) by (rewrite length_draws; auto).
  rewrite !nth_draws by auto. simpl.
  split; eexists; (split; [reflexivity|]).
  - pose proof (uniform i). clearbody L. nra.
  - pose proof (uniform (n + i)%nat). clearbody L. nra.
Qed.

Lemma step_in_arena (st : state) (t i : nat) :
  well_shaped cfg st -> (i < n)%nat ->
  in_closed_arena L (nth i (X st) NaN) ->
  in_closed_arena L (nth i (Y st) NaN) ->
  step_within L (nth i (Stepsize_at cfg u Dg st) NaN) ->
  in_closed_arena L (nth i (X (step cfg u Dg st t)) NaN) /\
  in_closed_arena L (nth i (Y (step cfg u Dg st t)) NaN).
Proof.
  intros HW Hi HXi HYi Hs. pose proof HW as (HX & HY & _).
  pose proof (length_dX cfg u st HW) as HdX.
  pose proof (length_dY cfg u st HW) as HdY.
  pose proof (length_Stepsize_at cfg u st HW) as HSt.
  pose proof (length_Angle_at cfg u st) as HAn.
  fold Dg in HdX, HdY, HSt. fold n in HX, HY.
  unfold step; simpl.
  rewrite !(nth_map_in _ _ i NaN NaN)
    by (rewrite map2_length; unfold n in *; lia).
  rewrite !(nth_map2 fadd _ _ i NaN NaN NaN) by (unfold n in *; lia).
  unfold dX, dY, step_sin, step_cos.
  rewrite !(nth_map2 _ _ _ i NaN NaN NaN) by (unfold n in *; lia).
  pose proof (nth_Angle_at cfg u st i Hi) as HA.
  split.
  - apply (moved_into_closed_arena L _ _ _ _ sin
             (Rlt_le _ _ Length_pos) HXi HA Hs).
    intros z. apply SIN_bound.
  - apply (moved_into_closed_arena L _ _ _ _ cos
             (Rlt_le _ _ Length_pos) HYi HA Hs).
    intros z. apply COS_bound.
Qed.

End Arena.

(** ** A single mussel (C2) *)

Lemma singleton_list {A : Type} (l : list A) (d v : A) :
  length l = 1%nat -> nth 0 l d = v -> l = [v].
Proof.
  destruct l as [|a [|b l]]; simpl; intros H1 H2;
    try discriminate. congruence.
Qed.

Lemma single_Density_In_Dist (D a b : R) :
  0 < D ->
  Density_In_Dist D (Nr_In_Dist D (dist [Fin a] [Fin b]) (Diagonal 1)) =
  [Fin 0].
Proof.
  intros HD. apply (singleton_list _ NaN).
  - apply (length_Density_In_Dist D [Fin a] [Fin b]). reflexivity.
  - pose proof (nth_density_positive_radius D [a] [b] 0 eq_refl HD
                  (Nat.lt_0_succ 0)) as H.
    cbn [map length] in H. rewrite H.
    unfold neighbours. simpl. f_equal. unfold Rdiv. ring.
Qed.

Lemma Beta1_zero_density (p1 p2 p3 : R) :
  Beta1 p1 p2 p3 (Fin 0) (Fin 0) = fdiv (Fin 1) (Fin (0.001 + p3)).
Proof.
  unfold Beta1. simpl.
  destruct (Rlt_dec 0.001 (p1 * 0 + p2 * 0)) as [H|_]; [exfalso; lra|].
  reflexivity.
Qed.

Section SingleAgent.

Variable cfg : config.
Variable u : nat -> R.

Hypothesis one_agent : N cfg = 1%Z.
Hypothesis D1_pos : 0 < D1 cfg.
Hypothesis D2_pos : 0 < D2 cfg.

Lemma single_densities (st : state) (a b : R) :
  X st = [Fin a] -> Y st = [Fin b] ->
  Density_In_Dist1 cfg (Diagonal 1) st = [Fin 0] /\
  Density_In_Dist2 cfg (Diagonal 1) st = [Fin 0] /\
  Beta_at cfg (Diagonal 1) st = [fdiv (Fin 1) (Fin (0.001 + P3 cfg))].
Proof.
  intros HX HY.
  assert (H1 : Density_In_Dist1 cfg (Diagonal 1) st = [Fin 0]).
  { unfold Density_In_Dist1, Nr_In_Dist1, Distance. rewrite HX, HY.
    apply single_Density_In_Dist, D1_pos. }
  assert (H2 : Density_In_Dist2 cfg (Diagonal 1) st = [Fin 0]).
  { unfold Density_In_Dist2, Nr_In_Dist2, Distance. rewrite HX, HY.
    apply single_Density_In_Dist, D2_pos. }
  split; [exact H1|]. split; [exact H2|].
  unfold Beta_at, Beta. rewrite H1, H2. simpl.
  rewrite Beta1_zero_density. reflexivity.
Qed.

Hypothesis P3_regular : 0.001 + P3 cfg <> 0.

(** One timestep of a mussel at a finite position, in closed form. *)
Lemma single_step (st : state) (a b : R) (t : nat) :
  X st = [Fin a] -> Y st = [Fin b] -> 0 < u (cursor st) ->
  let s := - (1 / (0.001 + P3 cfg)) * ln (u (cursor st)) in
  let theta := u (cursor st + 1)%nat * 360 / 180 * PI in
  Stepsize_at cfg u (Diagonal 1) st = [Fin s] /\
  X (step cfg u (Diagonal 1) st t) =
    [boundary (Length cfg) (Fin (a + sin theta * s))] /\
  Y (step cfg u (Diagonal 1) st t) =
    [boundary (Length cfg) (Fin (b + cos theta * s))].
Proof.
  intros HX HY Hu s theta.
  destruct (single_densities st a b HX HY) as (_ & _ & HB).
  assert (HS : Stepsize_at cfg u (Diagonal 1) st = [Fin s]).
  { unfold Stepsize_at, Stepsize. rewrite HB, one_agent. simpl.
    destruct (Req_dec_T (0.001 + P3 cfg) 0) as [E|_]; [contradiction|].
    simpl. destruct (Rlt_dec 0 (u (cursor st))) as [_|E]; [|contradiction].
    reflexivity. }
  assert (HA : Angle_at cfg u st = [Fin (u (cursor st + 1)%nat * 360)]).
  { unfold Angle_at, Angle. rewrite one_agent. reflexivity. }
  split; [exact HS|].
  unfold step, dX, dY. simpl. rewrite HS, HA, HX, HY. simpl.
  destruct (Req_dec_T 180 0) as [E|_]; [exfalso; lra|].
  split; reflexivity.
Qed.

End SingleAgent.

(** C2, as stated, fails on the notebook's own parameters: with one mussel
    Beta is [1 / 3.001] at the first timestep, not [1 / P3 = 1 / 3]. *)
Lemma single_agent_Beta_is_not_inverse_P3 :
  let cfg := notebook 1 300 in
  N cfg = 1%Z /\ 0 < D1 cfg /\ 0 < D2 cfg /\
  Beta_at cfg (Diagonal 1) (state_at cfg halves 0) =
    [Fin (1 / (0.001 + 3))] /\
  Beta_at cfg (Diagonal 1) (state_at cfg halves 0) <>
    [fdiv (Fin 1) (Fin (P3 cfg))].
Proof.
  intros cfg.
  assert (H1 : 0 < D1 cfg) by (simpl; lra).
  assert (H2 : 0 < D2 cfg) by (simpl; lra).
  destruct (single_densities cfg H1 H2 (state_at cfg halves 0)
              (halves 0 * 50) (halves 1 * 50) eq_refl eq_refl)
    as (_ & _ & HB).
  assert (E : Beta_at cfg (Diagonal 1) (state_at cfg halves 0) =
              [Fin (1 / (0.001 + 3))]).
  { rewrite HB. simpl.
    destruct (Req_dec_T (0.001 + 3) 0) as [E|_]; [exfalso; lra|].
    reflexivity. }
  repeat split; auto.
  rewrite E. simpl.
  destruct (Req_dec_T 3 0) as [E3|_]; [exfalso; lra|].
  intros Heq. injection Heq as Heq. lra.
Qed.

(** Why C2 needs non-zero step draws: a zero draw gives [log 0 = -inf], an
    infinite step, a position that is nan; from then on the distance of the
    mussel to itself is nan, not below D1, and its count is -1. *)
Lemma single_agent_zero_draw :
  let cfg := notebook 1 300 in
  X (state_at cfg zero_draw 1) = [NaN] /\
  Density_In_Dist1 cfg (Diagonal 1) (state_at cfg zero_draw 1) =
    [Fin (-1 / (2 * 2 * PI))].
Proof.
  intros cfg.
  assert (H1 : 0 < D1 cfg) by (simpl; lra).
  assert (H2 : 0 < D2 cfg) by (simpl; lra).
  destruct (single_densities cfg H1 H2 (state_at cfg zero_draw 0)
              (zero_draw 0 * 50) (zero_draw 1 * 50) eq_refl eq_refl)
    as (_ & _ & HB).
  assert (HS : Stepsize_at cfg zero_draw (Diagonal 1)
                           (state_at cfg zero_draw 0) = [PInf]).
  { unfold Stepsize_at, Stepsize. rewrite HB. simpl.
    destruct (Req_dec_T (0.001 + 3) 0) as [E|_]; [exfalso; lra|].
    simpl. destruct (Rlt_dec 0 0) as [E|_]; [exfalso; lra|].
    simpl. unfold signed_inf.
    destruct (Rlt_dec 0 (- (1 / (0.001 + 3)))) as [E|_]; [exfalso; lra|].
    destruct (Rlt_dec (- (1 / (0.001 + 3))) 0) as [_|E]; [|exfalso; lra].
    reflexivity. }
  assert (HX : X (state_at cfg zero_draw 1) = [NaN]).
  { rewrite state_at_S. change (Diagonal (agents cfg)) with (Diagonal 1).
    unfold step, dX. cbn [X]. rewrite HS.
    change (Angle_at cfg zero_draw (state_at cfg zero_draw 0))
      with [Fin (0 * 360)].
    change (X (state_at cfg zero_draw 0)) with [Fin (1 / 2 * 50)].
    simpl. destruct (Req_dec_T 180 0) as [E|_]; [exfalso; lra|].
    simpl. replace (0 * 360 / 180 * PI) with 0 by lra. rewrite sin_0.
    unfold signed_inf. destruct (Rlt_dec 0 0) as [E|_]; [exfalso; lra|].
    reflexivity. }
  split; [exact HX|].
  unfold Density_In_Dist1, Nr_In_Dist1, Distance. rewrite HX.
  assert (HY : length (Y (state_at cfg zero_draw 1)) = 1%nat)
    by (destruct (well_shaped_state_at cfg zero_draw 1) as (_ & HY & _);
        exact HY).
  destruct (Y (state_at cfg zero_draw 1)) as [|y [|y' ys]];
    try discriminate HY.
  unfold Density_In_Dist, sum_axis0, Nr_In_Dist, dist, madd, outer_sub,
    Diagonal, fill_diagonal, zeros2, zeros, fsquare, fsub, np_pi.
  simpl. pose proof PI_RGT_0.
  destruct (Req_dec_T (2 * 2 * PI) 0) as [E|_]; [exfalso; lra|].
  f_equal. f_equal. unfold Rdiv. ring.
Qed.

(** ** The notebook's Beta against the specification's formula *)

Lemma Rltb_sqrt_far (s D : R) :
  0 <= D -> D * D <= s -> Rltb (sqrt s) D = false.
Proof.
  intros HD Hs. unfold Rltb. destruct (Rlt_dec (sqrt s) D) as [H|_]; auto.
  exfalso. pose proof (sqrt_le_1_alt _ _ Hs) as Hle.
  rewrite sqrt_square in Hle by auto. lra.
Qed.

Lemma far_apart_no_neighbours (D : R) :
  0 <= D -> D <= 25 ->
  neighbours [0 * 50; 1 / 2 * 50] [1 / 2 * 50; 1 / 2 * 50] D 0 = 0%nat.
Proof.
  intros H0 H25. unfold neighbours. simpl.
  unfold euclid. simpl nth.
  rewrite Rltb_sqrt_far; [reflexivity | auto | nra].
Qed.

(** C1, as stated, fails on the notebook's own parameters: two mussels 25
    apart have zero densities, the notebook gives the first of them
    [Beta = 1 / (0.001 + 3)], the formula of the claim [1 / 3]. *)
Lemma Beta_differs_from_spec_formula :
  let cfg := notebook 2 300 in
  let Dg := Diagonal (agents cfg) in
  let st := state_at cfg far_apart 0 in
  let d1 := nth 0 (Density_In_Dist1 cfg Dg st) NaN in
  let d2 := nth 0 (Density_In_Dist2 cfg Dg st) NaN in
  nth 0 (Beta_at cfg Dg st) NaN = Fin (1 / (0.001 + 3)) /\
  Beta_spec (P1 cfg) (P2 cfg) (P3 cfg) d1 d2 = Fin (1 / 3) /\
  nth 0 (Beta_at cfg Dg st) NaN <>
    Beta_spec (P1 cfg) (P2 cfg) (P3 cfg) d1 d2.
Proof.
  intros cfg Dg st d1 d2.
  assert (Hd : forall D : R, 0 < D -> D <= 25 ->
    nth 0 (Density_In_Dist D
             (Nr_In_Dist D (dist (X st) (Y st)) (Diagonal 2))) NaN = Fin 0).
  { intros D H0 H25.
    pose proof (nth_density_positive_radius D
                  [0 * 50; 1 / 2 * 50] [1 / 2 * 50; 1 / 2 * 50] 0
                  eq_refl H0 (Nat.lt_0_succ 1)) as H.
    rewrite far_apart_no_neighbours in H by lra.
    cbn [map length] in H.
    change (X st) with [Fin (0 * 50); Fin (1 / 2 * 50)].
    change (Y st) with [Fin (1 / 2 * 50); Fin (1 / 2 * 50)].
    rewrite H. f_equal. simpl. unfold Rdiv. ring. }
  assert (E1 : d1 = Fin 0) by (apply (Hd 2); lra).
  assert (E2 : d2 = Fin 0) by (apply (Hd 6); lra).
  assert (HB : nth 0 (Beta_at cfg Dg st) NaN = Fin (1 / (0.001 + 3))).
  { unfold Dg, st.
    rewrite (nth_Beta_at cfg (state_at cfg far_apart 0) 0
               (well_shaped_state_at cfg far_apart 0) (Nat.lt_0_succ 1)).
    fold st. fold Dg. fold d1. fold d2. rewrite E1, E2.
    rewrite Beta1_zero_density. simpl.
    destruct (Req_dec_T (0.001 + 3) 0) as [E|_]; [exfalso; lra|].
    reflexivity. }
  assert (HS : Beta_spec (P1 cfg) (P2 cfg) (P3 cfg) d1 d2 = Fin (1 / 3)).
  { rewrite E1, E2. unfold Beta_spec. simpl.
    destruct (Rlt_dec 0.001 (100 * 0 + -80 * 0 + 3)) as [_|E];
      [|exfalso; lra].
    simpl.
    destruct (Req_dec_T (100 * 0 + -80 * 0 + 3) 0) as [E|_];
      [exfalso; lra|].
    f_equal. f_equal. lra. }
  split; [exact HB|]. split; [exact HS|].
  rewrite HB, HS. intros Heq. injection Heq as Heq. lra.
Qed.

(** ** Invalid configurations are run, not refused *)

Lemma shape_no_rows (M : matrix) (m : nat) : shape M 0 m -> M = [].
Proof. intros [H _]. destruct M; [reflexivity | discriminate]. Qed.

(** ** Reaching the edge of the arena *)

Lemma edge_walk_uniform (k : nat) : 0 <= edge_walk k < 1.
Proof.
  assert (He : 0 < exp (-1) < 1).
  { split; [apply exp_pos|].
    rewrite <- exp_0. apply exp_increasing. lra. }
  destruct k as [|[|[|[|k]]]]; simpl; lra.
Qed.

(** The closed end of the arena: one mussel at (1, 1) in an arena of
    length 2 takes a step of magnitude 1 along y, ends the timestep on
    y = 2 = Length, and the boundary correction leaves it there, outside
    [0, Length). *)
Lemma half_open_arena_fails :
  let cfg := unit_beta in
  ((1 <= N cfg)%Z /\ 0 < Length cfg /\ 0 < D1 cfg /\ 0 < D2 cfg) /\
  (forall k, 0 <= edge_walk k < 1) /\
  nth 0 (Stepsize_at cfg edge_walk (Diagonal 1)
                     (state_at cfg edge_walk 0)) NaN = Fin 1 /\
  Rabs 1 <= Length cfg /\
  exists Xs_ Ys_ : matrix,
    run cfg edge_walk = Ok (Xs_, Ys_) /\
    entry Ys_ 0 0 = Fin (Length cfg) /\
    ~ in_arena (Length cfg) (entry Ys_ 0 0).
Proof.
  intros cfg.
  assert (D1p : 0 < D1 cfg) by (simpl; lra).
  assert (D2p : 0 < D2 cfg) by (simpl; lra).
  assert (P3r : 0.001 + P3 cfg <> 0) by (simpl; lra).
  destruct (single_step cfg edge_walk eq_refl D1p D2p P3r
              (state_at cfg edge_walk 0)
              (edge_walk 0 * 2) (edge_walk 1 * 2) 0 eq_refl eq_refl)
    as (HS & _ & HY).
  { apply exp_pos. }
  assert (ES : Stepsize_at cfg edge_walk (Diagonal 1)
                           (state_at cfg edge_walk 0) = [Fin 1]).
  { etransitivity; [exact HS|]. simpl. rewrite ln_exp.
    f_equal. f_equal. lra. }
  assert (EY1 : Y (step cfg edge_walk (Diagonal 1)
                        (state_at cfg edge_walk 0) 0) = [Fin 2]).
  { etransitivity; [exact HY|]. rewrite boundary_Fin. simpl.
    rewrite ln_exp. replace (0 * 360 / 180 * PI) with 0 by lra.
    rewrite cos_0. f_equal. f_equal. rdec; lra. }
  clear HS HY.
  split; [repeat split; simpl; try lia; lra|].
  split; [exact edge_walk_uniform|].
  split; [rewrite ES; reflexivity|].
  split; [simpl; rewrite Rabs_R1; lra|].
  eexists. eexists. split; [apply run_ok; simpl; lia|].
  destruct (history_entry cfg edge_walk 1 0 0) as [_ HYs];
    try (unfold timesteps, agents; simpl; lia).
  change (timesteps cfg) with 1%nat.
  assert (EY : entry (Ys (state_at cfg edge_walk 1)) 0 0 = Fin 2).
  { rewrite HYs. rewrite state_at_S.
    change (Diagonal (agents cfg)) with (Diagonal 1).
    rewrite EY1. reflexivity. }
  split; [exact EY|].
  rewrite EY. intros (r & Hr & Hlt). injection Hr as <-.
  simpl in Hlt. lra.
Qed.

(** * Further properties of the notebook *)

(** ** [distp] computes the matrix of [dist] *)

Lemma matrix_ext (A B : matrix) (n m : nat) :
  shape A n m -> shape B n m ->
  (forall i j, (i < n)%nat -> (j < m)%nat -> entry A i j = entry B i j) ->
  A = B.
Proof.
  intros HA HB H.
  assert (HAn : length A = n) by (destruct HA; auto).
  assert (HBn : length B = n) by (destruct HB; auto).
  apply (nth_ext _ _ [] []).
  - congruence.
  - intros i Hi. rewrite HAn in Hi.
    pose proof (shape_row A n m i HA Hi) as HrA.
    pose proof (shape_row B n m i HB Hi) as HrB.
    apply (nth_ext _ _ NaN NaN).
    + congruence.
    + intros j Hj. rewrite HrA in Hj. apply H; auto.
Qed.

Lemma shape_set_entry (i j : nat) (v : float) (d : matrix) (n m : nat) :
  shape d n m -> shape (set_entry i j v d) n m.
Proof.
  intros [Hn Hrows]. unfold set_entry. split.
  - rewrite length_upd. exact Hn.
  - rewrite Forall_forall in *. intros row Hin.
    destruct (In_nth _ _ [] Hin) as [k [Hk Hrow]].
    rewrite length_upd in Hk. subst row.
    destruct (Nat.eq_dec i k) as [->|Hne].
    + rewrite nth_upd_same by auto. rewrite length_upd.
      apply Hrows, nth_In, Hk.
    + rewrite nth_upd_other by auto. apply Hrows, nth_In, Hk.
Qed.

Lemma entry_set_entry (i j i' j' : nat) (v : float) (d : matrix)
      (n m : nat) :
  shape d n m -> (i < n)%nat -> (j < m)%nat ->
  entry (set_entry i j v d) i' j' =
  if ((i' =? i) && (j' =? j))%nat then v else entry d i' j'.
Proof.
  intros HS Hi Hj. unfold entry, set_entry.
  destruct (Nat.eqb_spec i' i) as [->|Hne]; simpl.
  - rewrite nth_upd_same by (destruct HS; lia).
    destruct (Nat.eqb_spec j' j) as [->|Hne'].
    + apply nth_upd_same. rewrite (shape_row d n m); auto.
    + apply nth_upd_other. auto.
  - rewrite nth_upd_other by auto. reflexivity.
Qed.

Section Fill.

Variable f : nat -> nat -> float.
Variables n m : nat.

(** Filling the cells of column [j] listed in [rows]. *)
Lemma fill_column (rows : list nat) (j : nat) (d : matrix) :
  shape d n m -> (j < m)%nat -> (forall i, In i rows -> (i < n)%nat) ->
  let d' := fold_left (fun d i => set_entry i j (f i j) d) rows d in
  shape d' n m /\
  forall i' j', entry d' i' j' =
    if (j' =? j)%nat && existsb (Nat.eqb i') rows
    then f i' j else entry d i' j'.
Proof.
  revert d. induction rows as [|i rows IH]; intros d HS Hj Hrows; simpl.
  - split; auto. intros i' j'. rewrite andb_false_r. reflexivity.
  - assert (Hi : (i < n)%nat) by (apply Hrows; left; auto).
    destruct (IH (set_entry i j (f i j) d)) as [HS' HE];
      auto using shape_set_entry.
    { intros k Hk. apply Hrows. right. auto. }
    split; [exact HS'|].
    intros i' j'. rewrite HE.
    rewrite (entry_set_entry i j i' j' _ d n m) by auto.
    destruct (Nat.eqb_spec j' j) as [->|Hne]; simpl.
    + destruct (existsb (Nat.eqb i') rows); simpl.
      * rewrite orb_true_r. reflexivity.
      * rewrite orb_false_r, andb_true_r.
        destruct (Nat.eqb_spec i' i) as [->|Hne]; reflexivity.
    + rewrite andb_false_r. reflexivity.
Qed.

Lemma fill_columns (rows cols : list nat) (d : matrix) :
  shape d n m -> (forall i, In i rows -> (i < n)%nat) ->
  (forall j, In j cols -> (j < m)%nat) ->
  let d' := fold_left
              (fun d j =>
                 fold_left (fun d i => set_entry i j (f i j) d) rows d)
              cols d in
  shape d' n m /\
  forall i' j', entry d' i' j' =
    if existsb (Nat.eqb j') cols && existsb (Nat.eqb i') rows
    then f i' j' else entry d i' j'.
Proof.
  revert d. induction cols as [|j cols IH]; intros d HS Hrows Hcols; simpl.
  - split; auto.
  - assert (Hj : (j < m)%nat) by (apply Hcols; left; auto).
    destruct (fill_column rows j d HS Hj Hrows) as [HS1 HE1].
    destruct (IH _ HS1 Hrows) as [HS' HE].
    { intros k Hk. apply Hcols. right. auto. }
    split; [exact HS'|].
    intros i' j'. rewrite HE, HE1.
    destruct (Nat.eqb_spec j' j) as [->|Hne]; simpl.
    + destruct (existsb (Nat.eqb j) cols), (existsb (Nat.eqb i') rows);
        reflexivity.
    + reflexivity.
Qed.

End Fill.

Lemma existsb_seq (k n : nat) :
  (k < n)%nat -> existsb (Nat.eqb k) (seq 0 n) = true.
Proof.
  intros H. apply existsb_exists. exists k. split.
  - apply in_seq. lia.
  - apply Nat.eqb_refl.
Qed.

(** X1. On arrays of one length the loop-written [distp] returns exactly
    the matrix of the broadcasting [dist], whatever the doubles are. *)
Theorem distp_is_dist (x y : array) :
  length x = length y -> distp x y = dist x y.
Proof.
  intros H. unfold distp.
  set (f := fun i j =>
              fsqrt (fadd (fsquare (fsub (nth j x NaN) (nth i x NaN)))
                          (fsquare (fsub (nth j y NaN) (nth i y NaN))))).
  destruct (fill_columns f (length x) (length y)
              (seq 0 (length x)) (seq 0 (length y))
              (zeros2 (length x) (length y))) as [HS HE].
  { apply shape_zeros2. }
  { intros i Hi. apply in_seq in Hi. lia. }
  { intros j Hj. apply in_seq in Hj. lia. }
  apply (matrix_ext _ _ (length x) (length y)).
  - exact HS.
  - rewrite <- H. apply shape_dist, H.
  - intros i j Hi Hj. rewrite HE.
    rewrite !existsb_seq by auto. simpl.
    rewrite entry_dist by (auto; lia).
    unfold f.
    rewrite (fsub_swap (nth i x NaN)), (fsub_swap (nth i y NaN)).
    rewrite !fsquare_fneg. reflexivity.
Qed.

Lemma distp_is_dist_witness :
  distp [Fin 0; Fin 3; NaN] [Fin 0; Fin 4; PInf] =
  dist [Fin 0; Fin 3; NaN] [Fin 0; Fin 4; PInf].
Proof.
  apply (distp_is_dist [Fin 0; Fin 3; NaN] [Fin 0; Fin 4; PInf]).
  reflexivity.
Defined.

(** ** [dist] on real positions *)

(** X4. The matrix of [dist] depends on the relative positions only:
    moving every agent by the same real offsets [(cx, cy)] leaves it
    unchanged. *)
Theorem dist_translation_invariant (x y : list R) (cx cy : R) :
  length x = length y ->
  dist (map Fin (map (fun v => v + cx) x))
       (map Fin (map (fun v => v + cy) y)) =
  dist (map Fin x) (map Fin y).
Proof.
  intros H.
  assert (Hx : length (map (fun v => v + cx) x) = length x)
    by apply length_map.
  assert (Hy : length (map (fun v => v + cy) y) = length y)
    by apply length_map.
  apply (matrix_ext _ _ (length x) (length x)).
  - pose proof (shape_dist (map Fin (map (fun v => v + cx) x))
                           (map Fin (map (fun v => v + cy) y))) as HS.
    rewrite !length_map in HS. apply HS. exact H.
  - pose proof (shape_dist (map Fin x) (map Fin y)) as HS.
    rewrite !length_map in HS. apply HS. exact H.
  - intros i j Hi Hj.
    rewrite !entry_dist_Fin by (rewrite ?Hx, ?Hy; auto).
    f_equal. unfold euclid.
    rewrite !(nth_map_in (fun v => v + cx) x _ 0 0) by auto.
    rewrite !(nth_map_in (fun v => v + cy) y _ 0 0) by lia.
    f_equal. ring.
Qed.

Lemma dist_translation_invariant_witness :
  dist (map Fin (map (fun v => v + 10) [0; 3]))
       (map Fin (map (fun v => v + -2) [0; 4])) =
  dist (map Fin [0; 3]) (map Fin [0; 4]).
Proof.
  apply (dist_translation_invariant [0; 3] [0; 4] 10 (-2)). reflexivity.
Defined.

(** ** One pass of the boundary conditions *)

(** X5. The boundary correction is a single pass, not a modulo: for an
    arena of length [Length >= 0] the corrected coordinate is inside
    [0, Length] exactly when the coordinate was inside
    [-Length, 2*Length]; a mussel thrown further out stays out. *)
Theorem boundary_single_pass (L x : R) :
  0 <= L ->
  (in_closed_arena L (boundary L (Fin x)) <-> - L <= x <= 2 * L).
Proof.
  intros HL. split.
  - intros (r & Hr & Hrange). rewrite boundary_Fin in Hr.
    injection Hr as Hr. subst r. revert Hrange. rdec; lra.
  - apply boundary_into_closed_arena. exact HL.
Qed.

Lemma boundary_single_pass_witness :
  0 <= 50 /\
  (in_closed_arena 50 (boundary 50 (Fin 120)) <-> - 50 <= 120 <= 2 * 50).
Proof.
  split; [lra|]. apply (boundary_single_pass 50 120). lra.
Defined.

(** ** The entries of one timestep *)

Lemma nth_Stepsize_at (cfg : config) (u : nat -> R) (st : state) (i : nat) :
  well_shaped cfg st -> (i < agents cfg)%nat ->
  let Dg := Diagonal (agents cfg) in
  nth i (Stepsize_at cfg u Dg st) NaN =
  fmul (fneg (nth i (Beta_at cfg Dg st) NaN))
       (flog (Fin (u (cursor st + i)%nat))).
Proof.
  intros HW Hi Dg. unfold Stepsize_at, Stepsize.
  rewrite (nth_map2 _ _ _ i NaN 0 NaN).
  - rewrite nth_draws by auto. reflexivity.
  - unfold Dg. rewrite length_Beta_at; auto.
  - rewrite length_draws. exact Hi.
Qed.

Lemma nth_step (cfg : config) (u : nat -> R) (st : state) (t i : nat) :
  well_shaped cfg st -> (i < agents cfg)%nat ->
  let Dg := Diagonal (agents cfg) in
  let theta := fmul (fdiv (nth i (Angle_at cfg u st) NaN) (Fin 180)) np_pi in
  let s := nth i (Stepsize_at cfg u Dg st) NaN in
  nth i (dX cfg u Dg st) NaN = fmul (fsin theta) s /\
  nth i (dY cfg u Dg st) NaN = fmul (fcos theta) s /\
  nth i (X (step cfg u Dg st t)) NaN =
    boundary (Length cfg) (fadd (nth i (X st) NaN) (fmul (fsin theta) s)) /\
  nth i (Y (step cfg u Dg st t)) NaN =
    boundary (Length cfg) (fadd (nth i (Y st) NaN) (fmul (fcos theta) s)).
Proof.
  intros HW Hi Dg theta s. subst Dg. pose proof HW as (HX & HY & _).
  pose proof (length_dX cfg u st HW) as HdX.
  pose proof (length_dY cfg u st HW) as HdY.
  pose proof (length_Stepsize_at cfg u st HW) as HSt.
  pose proof (length_Angle_at cfg u st) as HAn.
  assert (EX : nth i (dX cfg u (Diagonal (agents cfg)) st) NaN =
               fmul (fsin theta) s).
  { unfold dX, step_sin.
    rewrite (nth_map2 _ _ _ i NaN NaN NaN) by lia.
    reflexivity. }
  assert (EY : nth i (dY cfg u (Diagonal (agents cfg)) st) NaN =
               fmul (fcos theta) s).
  { unfold dY, step_cos.
    rewrite (nth_map2 _ _ _ i NaN NaN NaN) by lia.
    reflexivity. }
  split; [exact EX|]. split; [exact EY|].
  unfold step; simpl.
  rewrite !(nth_map_in _ _ i NaN NaN) by (rewrite map2_length; lia).
  rewrite !(nth_map2 fadd _ _ i NaN NaN NaN) by lia.
  rewrite EX, EY. split; reflexivity.
Qed.

(** ** Doubles that are not real numbers are never repaired *)

Lemma fadd_not_finite (a b : float) : ~ finite a -> ~ finite (fadd a b).
Proof.
  intros Ha [r Hr]. destruct a; try (apply Ha; eexists; reflexivity);
    destruct b; simpl in Hr; discriminate.
Qed.

Lemma boundary_not_finite (L : R) (a : float) :
  ~ finite a -> ~ finite (boundary L a).
Proof.
  intros Ha [r Hr].
  destruct a; try (apply Ha; eexists; reflexivity);
    unfold boundary, fgt, fsub in Hr; simpl in Hr; discriminate.
Qed.

Lemma step_not_finite (cfg : config) (u : nat -> R) (st : state)
      (t i : nat) :
  well_shaped cfg st -> (i < agents cfg)%nat ->
  let st' := step cfg u (Diagonal (agents cfg)) st t in
  (~ finite (nth i (X st) NaN) -> ~ finite (nth i (X st') NaN)) /\
  (~ finite (nth i (Y st) NaN) -> ~ finite (nth i (Y st') NaN)).
Proof.
  intros HW Hi st'.
  destruct (nth_step cfg u st t i HW Hi) as (_ & _ & EX & EY).
  unfold st'. rewrite EX, EY.
  split; intros H; apply boundary_not_finite, fadd_not_finite, H.
Qed.

(** X6. A coordinate that is infinite or nan at some timestep is infinite
    or nan at every later timestep: the update and the boundary correction
    never bring it back to a real number, and every later column of the
    history records it so. *)
Theorem not_finite_is_absorbing (cfg : config) (u : nat -> R)
        (t k i : nat) :
  (i < agents cfg)%nat ->
  (~ finite (nth i (X (state_at cfg u t)) NaN) ->
   ~ finite (nth i (X (state_at cfg u (t + k))) NaN) /\
   ((t + k < timesteps cfg)%nat ->
    ~ finite (entry (Xs (state_at cfg u (timesteps cfg))) i (t + k)))) /\
  (~ finite (nth i (Y (state_at cfg u t)) NaN) ->
   ~ finite (nth i (Y (state_at cfg u (t + k))) NaN) /\
   ((t + k < timesteps cfg)%nat ->
    ~ finite (entry (Ys (state_at cfg u (timesteps cfg))) i (t + k)))).
Proof.
  intros Hi.
  assert (HXk : forall k', ~ finite (nth i (X (state_at cfg u t)) NaN) ->
                  ~ finite (nth i (X (state_at cfg u (t + k'))) NaN)).
  { induction k' as [|k' IH]; intros H.
    - rewrite Nat.add_0_r. exact H.
    - rewrite Nat.add_succ_r, state_at_S.
      apply (step_not_finite cfg u _ _ i
               (well_shaped_state_at cfg u _) Hi), IH, H. }
  assert (HYk : forall k', ~ finite (nth i (Y (state_at cfg u t)) NaN) ->
                  ~ finite (nth i (Y (state_at cfg u (t + k'))) NaN)).
  { induction k' as [|k' IH]; intros H.
    - rewrite Nat.add_0_r. exact H.
    - rewrite Nat.add_succ_r, state_at_S.
      apply (step_not_finite cfg u _ _ i
               (well_shaped_state_at cfg u _) Hi), IH, H. }
  split; intros H; (split; [auto|]); intros Hlt;
    destruct (history_entry cfg u (timesteps cfg) (t + k) i Hlt
                            (le_n _) Hi) as [EX EY].
  - rewrite EX. rewrite <- Nat.add_succ_r. apply HXk, H.
  - rewrite EY. rewrite <- Nat.add_succ_r. apply HYk, H.
Qed.

Lemma not_finite_is_absorbing_witness :
  let cfg := notebook 1 300 in
  (0 < agents cfg)%nat /\
  ~ finite (nth 0 (X (state_at cfg zero_draw 1)) NaN) /\
  ~ finite (nth 0 (X (state_at cfg zero_draw (1 + 7))) NaN).
Proof.
  intros cfg.
  assert (Hi : (0 < agents cfg)%nat) by (unfold agents; simpl; lia).
  assert (Hn : ~ finite (nth 0 (X (state_at cfg zero_draw 1)) NaN)).
  { destruct single_agent_zero_draw as [HX _]. fold cfg in HX.
    rewrite HX. simpl. intros [r Hr]. discriminate. }
  split; [exact Hi|]. split; [exact Hn|].
  destruct (not_finite_is_absorbing cfg zero_draw 1 7 0 Hi) as [HX _].
  apply HX. exact Hn.
Defined.

(** ** The history arrays and the frames of the animation *)

(** X11. While the loop runs, each column of the histories is written
    exactly once: when timestep [k] starts, column [t] holds the positions
    timestep [t] ended with if [t < k], and is still the zeros of the
    allocation otherwise. *)
Theorem history_written_once (cfg : config) (u : nat -> R) (k t i : nat) :
  (k <= timesteps cfg)%nat -> (t < timesteps cfg)%nat ->
  (i < agents cfg)%nat ->
  entry (Xs (state_at cfg u k)) i t =
    (if (t <? k)%nat then nth i (X (state_at cfg u (S t))) NaN else Fin 0) /\
  entry (Ys (state_at cfg u k)) i t =
    (if (t <? k)%nat then nth i (Y (state_at cfg u (S t))) NaN else Fin 0).
Proof.
  intros Hk Ht Hi. destruct (Nat.ltb_spec t k) as [Hlt|Hge].
  - apply history_entry; auto.
  - induction k as [|k IH].
    + unfold state_at, loop, initial. simpl.
      split; apply entry_zeros2; auto.
    + destruct (well_shaped_state_at cfg u k) as (HX & HY & HXs & HYs).
      destruct (well_shaped_state_at cfg u (S k)) as (HX' & HY' & _).
      destruct IH as [IHX IHY]; try lia.
      rewrite state_at_S in *. unfold step in *. simpl in *.
      split.
      * rewrite <- IHX.
        apply (entry_set_col_other _ _ _ _ (agents cfg) (timesteps cfg));
          auto; lia.
      * rewrite <- IHY.
        apply (entry_set_col_other _ _ _ _ (agents cfg) (timesteps cfg));
          auto; lia.
Qed.

Lemma history_written_once_witness :
  let cfg := notebook 2 3 in
  ((1 <= timesteps cfg)%nat /\ (2 < timesteps cfg)%nat /\
   (0 < agents cfg)%nat) /\
  entry (Xs (state_at cfg halves 1)) 0 2 = Fin 0.
Proof.
  intros cfg.
  assert (Hk : (1 <= timesteps cfg)%nat) by (unfold timesteps; simpl; lia).
  assert (Ht : (2 < timesteps cfg)%nat) by (unfold timesteps; simpl; lia).
  assert (Hi : (0 < agents cfg)%nat) by (unfold agents; simpl; lia).
  split; [auto|].
  destruct (history_written_once cfg halves 1 2 0 Hk Ht Hi) as [HX _].
  exact HX.
Defined.

Lemma column_of_history (M : matrix) (a : array) (n t : nat) :
  length M = n -> length a = n ->
  (forall i, (i < n)%nat -> entry M i t = nth i a NaN) ->
  column M t = a.
Proof.
  intros HM Ha H. rewrite column_as_entries. rewrite HM.
  apply (nth_ext _ _ NaN NaN).
  - rewrite length_map, length_seq. congruence.
  - intros i Hi. rewrite length_map, length_seq in Hi.
    rewrite (nth_map_in _ _ i O NaN) by (rewrite length_seq; auto).
    rewrite seq_nth by auto. apply H. exact Hi.
Qed.

(** X12. Frame [i] of the animation, the data [updatefig(i)] takes from the
    returned histories, is exactly the pair of position arrays the loop
    ended timestep [i] with; the last frame is the final state that the
    static plot shows. *)
Theorem updatefig_shows_timestep (cfg : config) (u : nat -> R) :
  (0 <= N cfg)%Z -> (0 <= EndTime cfg)%Z ->
  exists Xs_ Ys_ : matrix,
    run cfg u = Ok (Xs_, Ys_) /\
    forall i, (i < timesteps cfg)%nat ->
      updatefig Xs_ Ys_ i =
      (X (state_at cfg u (S i)), Y (state_at cfg u (S i))).
Proof.
  intros HN HT. eexists. eexists. split; [apply run_ok; auto|].
  intros i Hi. unfold updatefig.
  destruct (well_shaped_state_at cfg u (timesteps cfg))
    as (_ & _ & [HXs _] & [HYs _]).
  destruct (well_shaped_state_at cfg u (S i)) as (HX & HY & _).
  f_equal.
  - apply (column_of_history _ _ (agents cfg)); auto.
    intros k Hk.
    apply (history_entry cfg u (timesteps cfg) i k Hi (le_n _) Hk).
  - apply (column_of_history _ _ (agents cfg)); auto.
    intros k Hk.
    apply (history_entry cfg u (timesteps cfg) i k Hi (le_n _) Hk).
Qed.

Lemma updatefig_shows_timestep_witness :
  let cfg := notebook 2 3 in
  ((0 <= N cfg)%Z /\ (0 <= EndTime cfg)%Z) /\
  exists Xs_ Ys_ : matrix,
    run cfg halves = Ok (Xs_, Ys_) /\
    forall i, (i < timesteps cfg)%nat ->
      updatefig Xs_ Ys_ i =
      (X (state_at cfg halves (S i)), Y (state_at cfg halves (S i))).
Proof.
  intros cfg.
  assert (HN : (0 <= N cfg)%Z) by (simpl; lia).
  assert (HT : (0 <= EndTime cfg)%Z) by (simpl; lia).
  split; [auto|].
  apply (updatefig_shows_timestep cfg halves HN HT).
Defined.

(** ** Which variate goes where *)

(** X13. The generator is read in a fixed order: agent [i] starts at
    [(u[i], u[N+i]) * Length]; after [t] timesteps [2*N + 2*N*t] variates
    are consumed; at timestep [t] agent [i] takes variate
    [2*N + 2*N*t + i] for its step and variate [2*N + 2*N*t + N + i] for
    its angle, which is that variate times 360. *)
Theorem variates_layout (cfg : config) (u : nat -> R) (t i : nat) :
  (i < agents cfg)%nat ->
  let n := agents cfg in
  let st := state_at cfg u t in
  let Dg := Diagonal n in
  nth i (X (state_at cfg u 0)) NaN = Fin (u i * Length cfg) /\
  nth i (Y (state_at cfg u 0)) NaN = Fin (u (n + i)%nat * Length cfg) /\
  cursor st = (2 * n + 2 * n * t)%nat /\
  nth i (Stepsize_at cfg u Dg st) NaN =
    fmul (fneg (nth i (Beta_at cfg Dg st) NaN))
         (flog (Fin (u (2 * n + 2 * n * t + i)%nat))) /\
  nth i (Angle_at cfg u st) NaN =
    Fin (u (2 * n + 2 * n * t + n + i)%nat * 360).
Proof.
  intros Hi n st Dg.
  pose proof (cursor_state_at cfg u t) as Hc. fold st in Hc. fold n in Hc.
  split; [|split; [|split; [exact Hc|split]]].
  - unfold state_at, loop, initial. simpl.
    rewrite (nth_map_in _ _ i 0 NaN) by (rewrite length_draws; auto).
    rewrite nth_draws by auto. reflexivity.
  - unfold state_at, loop, initial. simpl.
    rewrite (nth_map_in _ _ i 0 NaN) by (rewrite length_draws; auto).
    rewrite nth_draws by auto. reflexivity.
  - unfold Dg, n, st.
    rewrite (nth_Stepsize_at cfg u _ i (well_shaped_state_at cfg u t) Hi).
    fold st. fold n. rewrite Hc. reflexivity.
  - unfold st. rewrite nth_Angle_at by auto.
    fold st. fold n. rewrite Hc. reflexivity.
Qed.

Lemma variates_layout_witness :
  let cfg := notebook 2 3 in
  (1 < agents cfg)%nat /\ cursor (state_at cfg halves 2) = 12%nat.
Proof.
  intros cfg.
  assert (Hi : (1 < agents cfg)%nat) by (unfold agents; simpl; lia).
  split; [exact Hi|].
  destruct (variates_layout cfg halves 2 1 Hi) as (_ & _ & Hc & _).
  exact Hc.
Defined.

(** ** Bounds on the neighbour counts *)

Lemma filter_length_mono {A : Type} (p q : A -> bool) (l : list A) :
  (forall a, In a l -> p a = true -> q a = true) ->
  (length (filter p l) <= length (filter q l))%nat.
Proof.
  induction l as [|a l IH]; intros H; simpl; auto.
  assert (IH' : (length (filter p l) <= length (filter q l))%nat).
  { apply IH. intros b Hb. apply H. right. exact Hb. }
  destruct (p a) eqn:Ep.
  - rewrite (H a (or_introl eq_refl) Ep). simpl. lia.
  - destruct (q a); simpl; lia.
Qed.

Lemma filter_length_le {A : Type} (p : A -> bool) (l : list A) :
  (length (filter p l) <= length l)%nat.
Proof.
  induction l as [|a l IH]; simpl; auto. destruct (p a); simpl; lia.
Qed.

Lemma filter_length_lt {A : Type} (p : A -> bool) (l : list A) (a : A) :
  In a l -> p a = false -> (length (filter p l) < length l)%nat.
Proof.
  induction l as [|b l IH]; intros Hin Hp; simpl in *; [contradiction|].
  destruct Hin as [->|Hin].
  - rewrite Hp. pose proof (filter_length_le p l). lia.
  - specialize (IH Hin Hp). destruct (p b); simpl; lia.
Qed.

Lemma neighbours_below_population (x y : list R) (D : R) (j : nat) :
  (j < length x)%nat -> (neighbours x y D j < length x)%nat.
Proof.
  intros Hj. unfold neighbours.
  apply Nat.lt_le_trans with (length (seq 0 (length x))).
  - apply (filter_length_lt _ _ j).
    + apply in_seq. lia.
    + rewrite Nat.eqb_refl. reflexivity.
  - rewrite length_seq. apply Nat.le_refl.
Qed.

Lemma neighbours_monotone (x y : list R) (D D' : R) (j : nat) :
  D <= D' -> (neighbours x y D j <= neighbours x y D' j)%nat.
Proof.
  intros HD. unfold neighbours. apply filter_length_mono.
  intros i _ Hi. apply andb_true_iff in Hi. destruct Hi as [Hne Hlt].
  rewrite Hne. simpl. unfold Rltb in *.
  destruct (Rlt_dec (euclid x y i j) D) as [H|H]; [|discriminate].
  destruct (Rlt_dec (euclid x y i j) D') as [_|H']; [reflexivity|lra].
Qed.

(** X14. At real positions and for radii [0 < D1 <= D2], the two counts of
    an agent (the column sums of [Nr_In_Dist1] and [Nr_In_Dist2]) are
    whole numbers [c1 <= c2 <= N - 1]: the direct neighbourhood is part of
    the cluster neighbourhood, and a mussel never counts itself. *)
Theorem counts_nested_and_bounded
        (cfg : config) (st : state) (x y : list R) (j : nat) :
  X st = map Fin x -> Y st = map Fin y ->
  length x = agents cfg -> length y = agents cfg ->
  0 < D1 cfg -> D1 cfg <= D2 cfg -> (j < agents cfg)%nat ->
  let Dg := Diagonal (agents cfg) in
  exists c1 c2 : nat,
    nth j (sum_axis0 (Nr_In_Dist1 cfg Dg st)) NaN = Fin (INR c1) /\
    nth j (sum_axis0 (Nr_In_Dist2 cfg Dg st)) NaN = Fin (INR c2) /\
    (c1 <= c2 <= agents cfg - 1)%nat.
Proof.
  intros HX HY Hx Hy H1 H12 Hj Dg.
  exists (neighbours x y (D1 cfg) j), (neighbours x y (D2 cfg) j).
  unfold Nr_In_Dist1, Nr_In_Dist2, Distance, Dg.
  rewrite HX, HY, <- Hx.
  split; [apply count_positive_radius; auto; lia|].
  split; [apply count_positive_radius; try lia; lra|].
  split.
  - apply neighbours_monotone, H12.
  - pose proof (neighbours_below_population x y (D2 cfg) j). lia.
Qed.

Lemma counts_nested_and_bounded_witness :
  let cfg := notebook 2 300 in
  let st := {| X := map Fin [0; 1]; Y := map Fin [0; 0];
               Xs := []; Ys := []; cursor := O |} in
  (0 < D1 cfg /\ D1 cfg <= D2 cfg) /\
  exists c1 c2 : nat,
    nth 0 (sum_axis0 (Nr_In_Dist1 cfg (Diagonal (agents cfg)) st)) NaN
      = Fin (INR c1) /\
    nth 0 (sum_axis0 (Nr_In_Dist2 cfg (Diagonal (agents cfg)) st)) NaN
      = Fin (INR c2) /\
    (c1 <= c2 <= agents cfg - 1)%nat.
Proof.
  intros cfg st.
  assert (H1 : 0 < D1 cfg) by (simpl; lra).
  assert (H2 : D1 cfg <= D2 cfg) by (simpl; lra).
  split; [auto|].
  apply (counts_nested_and_bounded cfg st [0; 1] [0; 0] 0);
    auto; unfold agents; simpl; lia.
Defined.

(** * The notebook with the errors of Python floats *)

(** ** When [run_all] completes and when it raises *)

Lemma py_square_ok (D : R) :
  Rabs D < pow_overflow -> py_square D = Ok (fsquare (Fin D)).
Proof.
  intros H. unfold py_square.
  destruct (Rle_dec pow_overflow (Rabs D)); [exfalso; lra | reflexivity].
Qed.

Lemma py_square_raises (D : R) :
  pow_overflow <= Rabs D -> py_square D = Raise OverflowError.
Proof.
  intros H. unfold py_square.
  destruct (Rle_dec pow_overflow (Rabs D)); [reflexivity | contradiction].
Qed.

Lemma plain_radius_no_overflow (D : R) :
  Rabs D <= 1e150 -> Rabs D < pow_overflow.
Proof. unfold pow_overflow. intros H. lra. Qed.

Lemma checked_loop_S (cfg : config) (u : nat -> R) (Dg : matrix)
      (k : nat) (st : state) :
  checked_loop cfg u Dg (S k) st =
  (st' <- checked_loop cfg u Dg k st ;; checked_step cfg u Dg st' k).
Proof. unfold checked_loop. rewrite seq_S, fold_left_app. reflexivity. Qed.

Lemma checked_loop_ok (cfg : config) (u : nat -> R) (Dg : matrix)
      (k : nat) (st : state) :
  Rabs (D1 cfg) < pow_overflow -> Rabs (D2 cfg) < pow_overflow ->
  checked_loop cfg u Dg k st = Ok (loop cfg u Dg k st).
Proof.
  intros H1 H2. induction k as [|k IH].
  - reflexivity.
  - rewrite checked_loop_S, IH. unfold checked_step. simpl.
    rewrite !py_square_ok by auto. simpl.
    unfold loop. rewrite seq_S, fold_left_app. reflexivity.
Qed.

Lemma checked_loop_raises (cfg : config) (u : nat -> R) (Dg : matrix)
      (k : nat) (st : state) :
  pow_overflow <= Rabs (D1 cfg) \/ pow_overflow <= Rabs (D2 cfg) ->
  checked_loop cfg u Dg (S k) st = Raise OverflowError.
Proof.
  intros H. induction k as [|k IH].
  - unfold checked_loop, checked_step. simpl.
    destruct (Rle_dec pow_overflow (Rabs (D1 cfg))) as [H1|H1].
    + rewrite (py_square_raises _ H1). reflexivity.
    + rewrite py_square_ok by lra. simpl.
      destruct H as [H|H]; [contradiction|].
      rewrite (py_square_raises _ H). reflexivity.
  - rewrite checked_loop_S, IH. reflexivity.
Qed.

Lemma run_all_ok (cfg : config) (u : nat -> R) :
  Length cfg <> 0 -> (0 <= N cfg)%Z -> (0 <= EndTime cfg)%Z ->
  Rabs (D1 cfg) < pow_overflow -> Rabs (D2 cfg) < pow_overflow ->
  run_all cfg u = Ok (Xs (state_at cfg u (timesteps cfg)),
                      Ys (state_at cfg u (timesteps cfg))).
Proof.
  intros HL HN HT H1 H2.
  unfold run_all, MusselSize, np_zeros, np_zeros2, np_random_rand.
  destruct (Req_dec_T (Length cfg) 0) as [E|_]; [contradiction|].
  assert (EN : (N cfg <? 0)%Z = false) by (apply Z.ltb_ge; auto).
  assert (ET : (EndTime cfg <? 0)%Z = false) by (apply Z.ltb_ge; auto).
  rewrite EN, ET. simpl. rewrite checked_loop_ok by auto. reflexivity.
Qed.

Lemma run_all_overflow (cfg : config) (u : nat -> R) :
  Length cfg <> 0 -> (0 <= N cfg)%Z -> (1 <= EndTime cfg)%Z ->
  pow_overflow <= Rabs (D1 cfg) \/ pow_overflow <= Rabs (D2 cfg) ->
  run_all cfg u = Raise OverflowError.
Proof.
  intros HL HN HT HD.
  unfold run_all, MusselSize, np_zeros, np_zeros2, np_random_rand.
  destruct (Req_dec_T (Length cfg) 0) as [E|_]; [contradiction|].
  assert (EN : (N cfg <? 0)%Z = false) by (apply Z.ltb_ge; auto).
  assert (ET : (EndTime cfg <? 0)%Z = false) by (apply Z.ltb_ge; lia).
  rewrite EN, ET. simpl.
  destruct (Z.to_nat (EndTime cfg)) as [|k] eqn:Ek; [lia|].
  rewrite checked_loop_raises by auto. reflexivity.
Qed.

Lemma run_all_zero_division (cfg : config) (u : nat -> R) :
  Length cfg = 0 -> run_all cfg u = Raise ZeroDivisionError.
Proof.
  intros HL. unfold run_all, MusselSize. rewrite HL.
  destruct (Req_dec_T 0 0) as [_|E]; [reflexivity | contradiction].
Qed.

(** ** Invalid configurations (C3) *)

Lemma density_zero_radius (x y : array) (j : nat) :
  length x = length y -> (j < length x)%nat ->
  nth j (Density_In_Dist 0
           (Nr_In_Dist 0 (dist x y) (Diagonal (length x)))) NaN = NInf.
Proof.
  intros H Hj.
  pose proof (nth_Density_In_Dist 0 x y j H Hj) as HD. cbv zeta in HD.
  rewrite HD, count_nonpositive_radius by (auto; lra).
  simpl. destruct (Req_dec_T (0 * 0 * PI) 0) as [_|E]; [|exfalso; lra].
  unfold signed_inf. rdec; try lra. reflexivity.
Qed.

(** C3 (as the notebook behaves).  The notebook validates nothing.  An
    invalid configuration (N = 0, or D1 <= 0, or D2 <= 0, or Length <= 0)
    no larger than the notebook's own run (N <= 2000, EndTime <= 300),
    whose Length is not 0 and whose radii have magnitude at most 1e150, is
    run without any error: the run completes and returns histories of N
    rows and EndTime columns; a radius equal to 0 silently gives every
    agent the density -inf at every timestep. *)
Theorem invalid_configuration_is_run (cfg : config) (u : nat -> R) :
  invalid cfg -> notebook_sized cfg -> Length cfg <> 0 ->
  Rabs (D1 cfg) <= 1e150 -> Rabs (D2 cfg) <= 1e150 ->
  (exists Xs_ Ys_ : matrix,
     run_all cfg u = Ok (Xs_, Ys_) /\
     shape Xs_ (agents cfg) (timesteps cfg) /\
     shape Ys_ (agents cfg) (timesteps cfg)) /\
  (forall t j, (j < agents cfg)%nat ->
     let st := state_at cfg u t in
     let Dg := Diagonal (agents cfg) in
     (D1 cfg = 0 -> nth j (Density_In_Dist1 cfg Dg st) NaN = NInf) /\
     (D2 cfg = 0 -> nth j (Density_In_Dist2 cfg Dg st) NaN = NInf)).
Proof.
  intros _ [[HN _] [HT _]] HL H1 H2. split.
  - destruct (well_shaped_state_at cfg u (timesteps cfg))
      as (_ & _ & HXs & HYs).
    eexists. eexists.
    split; [apply run_all_ok; auto using plain_radius_no_overflow|].
    split; assumption.
  - intros t j Hj st Dg.
    destruct (well_shaped_state_at cfg u t) as (HX & HY & _).
    fold st in HX, HY.
    unfold Density_In_Dist1, Density_In_Dist2, Nr_In_Dist1, Nr_In_Dist2,
      Distance, Dg.
    rewrite <- HX in *.
    split; intros ->; apply density_zero_radius; congruence.
Qed.

Lemma invalid_configuration_is_run_witness :
  let cfg := {| N := 3; Length := -1; EndTime := 300;
                P1 := 100; P2 := -80; P3 := 3; D1 := 0; D2 := -6 |} in
  (invalid cfg /\ notebook_sized cfg /\ Length cfg <> 0 /\
   Rabs (D1 cfg) <= 1e150 /\ Rabs (D2 cfg) <= 1e150) /\
  exists Xs_ Ys_ : matrix,
    run_all cfg halves = Ok (Xs_, Ys_) /\
    shape Xs_ (agents cfg) (timesteps cfg) /\
    shape Ys_ (agents cfg) (timesteps cfg).
Proof.
  intros cfg.
  assert (HI : invalid cfg) by (right; left; simpl; lra).
  assert (HS : notebook_sized cfg) by (split; simpl; lia).
  assert (HL : Length cfg <> 0) by (simpl; lra).
  assert (H1 : Rabs (D1 cfg) <= 1e150)
    by (simpl; rewrite Rabs_R0; lra).
  assert (H2 : Rabs (D2 cfg) <= 1e150).
  { simpl. unfold Rabs. destruct (Rcase_abs (-6)); lra. }
  split; [repeat split; auto; apply HS|].
  apply (invalid_configuration_is_run cfg halves HI HS HL H1 H2).
Defined.

(** C3, as stated, fails: a configuration without mussels runs to the end
    and returns empty histories, and one mussel with [D1 = 0] and a negative
    Length runs to the end too, its first density being -inf. *)
Lemma invalid_configurations_are_run :
  let empty := {| N := 0; Length := 50; EndTime := 300;
                  P1 := 100; P2 := -80; P3 := 3; D1 := 2; D2 := 6 |} in
  let degenerate := {| N := 1; Length := -1; EndTime := 300;
                       P1 := 100; P2 := -80; P3 := 3;
                       D1 := 0; D2 := -6 |} in
  (invalid empty /\ invalid degenerate) /\
  run_all empty halves = Ok ([], []) /\
  (exists h, run_all degenerate halves = Ok h) /\
  nth 0 (Density_In_Dist1 degenerate (Diagonal 1)
                          (state_at degenerate halves 0)) NaN = NInf /\
  (forall cfg, In cfg [empty; degenerate] ->
     forall e, run_all cfg halves <> Raise e).
Proof.
  intros empty degenerate.
  assert (Hsmall : forall r, -6 <= r <= 6 -> Rabs r < pow_overflow).
  { intros r Hr. apply plain_radius_no_overflow. unfold Rabs.
    destruct (Rcase_abs r); lra. }
  assert (HE : run_all empty halves = Ok ([], [])).
  { rewrite run_all_ok; try (simpl; lia); try (simpl; lra);
      try (apply Hsmall; simpl; lra).
    destruct (well_shaped_state_at empty halves (timesteps empty))
      as (_ & _ & HXs & HYs).
    rewrite (shape_no_rows _ _ HXs), (shape_no_rows _ _ HYs). reflexivity. }
  assert (HD : exists h, run_all degenerate halves = Ok h).
  { eexists. apply run_all_ok; try (simpl; lia); try (simpl; lra);
      apply Hsmall; simpl; lra. }
  split; [split; [left; reflexivity | right; left; simpl; lra]|].
  split; [exact HE|]. split; [exact HD|]. split.
  - apply (density_zero_radius (X (state_at degenerate halves 0))
                               (Y (state_at degenerate halves 0)) 0);
      [reflexivity | simpl; lia].
  - intros cfg [<-|[<-|[]]] e.
    + rewrite HE. discriminate.
    + destruct HD as [h ->]. discriminate.
Qed.

(** ** Radii that are not positive (C10) *)

(** C10 (within the range of Python's power).  For every configuration
    with [-1e150 <= D1 <= 0] (respectively D2) and at least one agent, at
    every timestep the neighbour count of every agent within that radius is
    -1, the square of the radius raises nothing and the density derived
    from the count is negative (-inf when the radius is 0); the run
    completes without an error when the configuration is no larger than
    the notebook's own run, Length is not 0 and both radii have magnitude
    at most 1e150. *)
Theorem nonpositive_radius_counts_minus_one
        (cfg : config) (u : nat -> R) (t j : nat) :
  (j < agents cfg)%nat ->
  let st := state_at cfg u t in
  let Dg := Diagonal (agents cfg) in
  (-1e150 <= D1 cfg <= 0 ->
     nth j (sum_axis0 (Nr_In_Dist1 cfg Dg st)) NaN = Fin (-1) /\
     py_square (D1 cfg) = Ok (fsquare (Fin (D1 cfg))) /\
     flt (nth j (Density_In_Dist1 cfg Dg st) NaN) (Fin 0) = true) /\
  (-1e150 <= D2 cfg <= 0 ->
     nth j (sum_axis0 (Nr_In_Dist2 cfg Dg st)) NaN = Fin (-1) /\
     py_square (D2 cfg) = Ok (fsquare (Fin (D2 cfg))) /\
     flt (nth j (Density_In_Dist2 cfg Dg st) NaN) (Fin 0) = true) /\
  (notebook_sized cfg -> Length cfg <> 0 ->
   Rabs (D1 cfg) <= 1e150 -> Rabs (D2 cfg) <= 1e150 ->
   exists h, run_all cfg u = Ok h).
Proof.
  intros Hj st Dg.
  destruct (well_shaped_state_at cfg u t) as (HX & HY & _).
  fold st in HX, HY.
  assert (HXY : length (X st) = length (Y st)) by congruence.
  assert (Hneg : forall D, -1e150 <= D <= 0 -> Rabs D < pow_overflow).
  { intros D HD. apply plain_radius_no_overflow. unfold Rabs.
    destruct (Rcase_abs D); lra. }
  unfold Density_In_Dist1, Density_In_Dist2, Nr_In_Dist1, Nr_In_Dist2,
    Distance, Dg.
  rewrite <- HX in *.
  split; [|split].
  - intros HD. split; [|split].
    + apply count_nonpositive_radius; auto; lra.
    + apply py_square_ok, Hneg, HD.
    + apply density_nonpositive_radius; auto; lra.
  - intros HD. split; [|split].
    + apply count_nonpositive_radius; auto; lra.
    + apply py_square_ok, Hneg, HD.
    + apply density_nonpositive_radius; auto; lra.
  - intros [[HN _] [HT _]] HL H1 H2. eexists.
    apply run_all_ok; auto using plain_radius_no_overflow.
Qed.

Lemma nonpositive_radius_counts_minus_one_witness :
  let cfg := {| N := 2; Length := 50; EndTime := 3;
                P1 := 100; P2 := -80; P3 := 3; D1 := 0; D2 := -1 |} in
  ((0 < agents cfg)%nat /\ -1e150 <= D1 cfg <= 0) /\
  nth 0 (sum_axis0 (Nr_In_Dist1 cfg (Diagonal (agents cfg))
                                (state_at cfg halves 1))) NaN = Fin (-1).
Proof.
  intros cfg.
  assert (H3 : (0 < agents cfg)%nat) by (unfold agents; simpl; lia).
  assert (HD : -1e150 <= D1 cfg <= 0) by (simpl; lra).
  split; [auto|].
  destruct (nonpositive_radius_counts_minus_one cfg halves 1 0 H3)
    as (HD1 & _).
  apply HD1. exact HD.
Defined.

(** C10, as stated, fails for a radius beyond the range of Python's power:
    with [D1 = -1e200] the count is still -1, but [D1**2] raises
    [OverflowError] in the first timestep, so that no density is produced
    and the run stops with that error. *)
Lemma nonpositive_radius_overflows :
  let cfg := {| N := 1; Length := 50; EndTime := 300;
                P1 := 100; P2 := -80; P3 := 3; D1 := -1e200; D2 := 6 |} in
  (D1 cfg <= 0 /\ (1 <= N cfg)%Z) /\
  nth 0 (sum_axis0 (Nr_In_Dist1 cfg (Diagonal (agents cfg))
                                (state_at cfg halves 0))) NaN = Fin (-1) /\
  py_square (D1 cfg) = Raise OverflowError /\
  run_all cfg halves = Raise OverflowError.
Proof.
  intros cfg.
  assert (HD : D1 cfg <= 0) by (simpl; lra).
  assert (HO : pow_overflow <= Rabs (D1 cfg)).
  { simpl. unfold pow_overflow, Rabs.
    destruct (Rcase_abs (-1e200)); lra. }
  split; [split; [exact HD | simpl; lia]|].
  split; [|split].
  - unfold Nr_In_Dist1, Distance.
    apply (count_nonpositive_radius (D1 cfg)
             (X (state_at cfg halves 0)) (Y (state_at cfg halves 0)) 0);
      [reflexivity | exact HD | simpl; lia].
  - apply py_square_raises, HO.
  - apply run_all_overflow; try (simpl; lia); try (simpl; lra).
    left. exact HO.
Qed.

(** ** Densities from the computed distances (C6) *)




(** ** A single mussel along the run (C2) *)

Lemma single_agent_cursor (cfg : config) (u : nat -> R) (t : nat) :
  N cfg = 1%Z -> cursor (state_at cfg u t) = (2 + 2 * t)%nat.
Proof.
  intros HN. rewrite cursor_state_at. unfold agents. rewrite HN.
  change (Z.to_nat 1) with 1%nat. lia.
Qed.

(** The position of a single mussel is real as long as none of its step
    draws so far was zero. *)
Lemma single_agent_real (cfg : config) (u : nat -> R) (t : nat) :
  N cfg = 1%Z -> 0 < D1 cfg -> 0 < D2 cfg -> 0.001 + P3 cfg <> 0 ->
  (forall t', (t' < t)%nat -> 0 < u (2 + 2 * t')%nat) ->
  exists a b : R,
    X (state_at cfg u t) = [Fin a] /\ Y (state_at cfg u t) = [Fin b].
Proof.
  intros HN H1 H2 HP. induction t as [|t IH]; intros Hu.
  - unfold state_at, loop, initial. simpl. rewrite HN. simpl.
    eexists. eexists. split; reflexivity.
  - destruct IH as (a & b & HX & HY).
    { intros t' Ht'. apply Hu. lia. }
    assert (Hc : 0 < u (cursor (state_at cfg u t))).
    { rewrite single_agent_cursor by auto. apply Hu. lia. }
    rewrite state_at_S. unfold agents. rewrite HN.
    change (Z.to_nat 1) with 1%nat.
    destruct (single_step cfg u HN H1 H2 HP (state_at cfg u t) a b t
                          HX HY Hc) as (_ & HX' & HY').
    rewrite HX', HY', !boundary_Fin.
    eexists. eexists. split; reflexivity.
Qed.

(** C2 (with the value the notebook computes).  For every run with N = 1,
    a length of magnitude at most 1e150, radii D1, D2 between 1e-150 and
    1e150 (so that the positions and the squares of the radii are ordinary
    doubles) and [P3 > -0.001], at every timestep before which no step
    draw of the mussel was zero, both local density terms are zero and
    Beta is exactly what [1 / (0.001 + P3)] evaluates to. *)
Theorem single_agent_Beta (cfg : config) (u : nat -> R) (t : nat) :
  N cfg = 1%Z -> Rabs (Length cfg) <= 1e150 ->
  1e-150 <= D1 cfg <= 1e150 -> 1e-150 <= D2 cfg <= 1e150 ->
  -0.001 < P3 cfg ->
  (forall t', (t' < t)%nat -> 0 < u (2 + 2 * t')%nat) ->
  let st := state_at cfg u t in
  Density_In_Dist1 cfg (Diagonal 1) st = [Fin 0] /\
  Density_In_Dist2 cfg (Diagonal 1) st = [Fin 0] /\
  Beta_at cfg (Diagonal 1) st =
    [fdiv (Fin 1) (fadd (Fin 0.001) (Fin (P3 cfg)))].
Proof.
  intros HN _ [H1 _] [H2 _] HP Hu st.
  assert (D1p : 0 < D1 cfg) by lra.
  assert (D2p : 0 < D2 cfg) by lra.
  assert (P3r : 0.001 + P3 cfg <> 0) by lra.
  destruct (single_agent_real cfg u t HN D1p D2p P3r Hu)
    as (a & b & HX & HY).
  exact (single_densities cfg D1p D2p st a b HX HY).
Qed.

Lemma single_agent_Beta_witness :
  let cfg := notebook 1 300 in
  (N cfg = 1%Z /\ Rabs (Length cfg) <= 1e150 /\
   1e-150 <= D1 cfg <= 1e150 /\
   1e-150 <= D2 cfg <= 1e150 /\ -0.001 < P3 cfg /\
   (forall t', (t' < 5)%nat -> 0 < halves (2 + 2 * t')%nat)) /\
  Beta_at cfg (Diagonal 1) (state_at cfg halves 5) =
    [fdiv (Fin 1) (fadd (Fin 0.001) (Fin (P3 cfg)))].
Proof.
  intros cfg.
  assert (H0 : N cfg = 1%Z) by reflexivity.
  assert (HL : Rabs (Length cfg) <= 1e150).
  { simpl. unfold Rabs. destruct (Rcase_abs 50); lra. }
  assert (H1 : 1e-150 <= D1 cfg <= 1e150) by (simpl; lra).
  assert (H2 : 1e-150 <= D2 cfg <= 1e150) by (simpl; lra).
  assert (H3 : -0.001 < P3 cfg) by (simpl; lra).
  assert (H4 : forall t', (t' < 5)%nat -> 0 < halves (2 + 2 * t')%nat)
    by (intros t' _; unfold halves; lra).
  split; [auto 10|].
  apply (single_agent_Beta cfg halves 5 H0 HL H1 H2 H3 H4).
Defined.

(** ** An agent stays in the arena while its steps are short (C4) *)

Lemma agent_in_arena (cfg : config) (u : nat -> R) (t i : nat) :
  0 < Length cfg -> (forall k, 0 <= u k < 1) -> (i < agents cfg)%nat ->
  (forall t', (t' < t)%nat ->
     step_within (Length cfg)
       (nth i (Stepsize_at cfg u (Diagonal (agents cfg))
                           (state_at cfg u t')) NaN)) ->
  in_closed_arena (Length cfg) (nth i (X (state_at cfg u t)) NaN) /\
  in_closed_arena (Length cfg) (nth i (Y (state_at cfg u t)) NaN).
Proof.
  intros HL Hu Hi. induction t as [|t IH]; intros Hs.
  - apply initial_in_arena; auto.
  - rewrite state_at_S.
    destruct IH as [IHX IHY]; [intros t' Ht'; apply Hs; lia|].
    apply step_in_arena; auto using well_shaped_state_at.
Qed.

(** C4 (per agent, with the interval the comparisons give).  For every
    valid configuration (N >= 1, Length > 0, and Length at most 1e150 so
    that twice the length is an ordinary double) run on uniform variates
    of [0, 1), after the boundary correction of timestep [t] every
    coordinate of agent [i] lies in the closed interval [0, Length], and is
    recorded so in the histories, except when a step of that agent, at
    timestep [t] or before, exceeded Length in magnitude. *)
Theorem agent_stays_in_closed_arena (cfg : config) (u : nat -> R)
        (t i : nat) :
  0 < Length cfg <= 1e150 ->
  (forall k, 0 <= u k < 1) -> (i < agents cfg)%nat ->
  (forall t', (t' <= t)%nat ->
     step_within (Length cfg)
       (nth i (Stepsize_at cfg u (Diagonal (agents cfg))
                           (state_at cfg u t')) NaN)) ->
  (in_closed_arena (Length cfg) (nth i (X (state_at cfg u (S t))) NaN) /\
   in_closed_arena (Length cfg) (nth i (Y (state_at cfg u (S t))) NaN)) /\
  ((t < timesteps cfg)%nat ->
   in_closed_arena (Length cfg)
     (entry (Xs (state_at cfg u (timesteps cfg))) i t) /\
   in_closed_arena (Length cfg)
     (entry (Ys (state_at cfg u (timesteps cfg))) i t)).
Proof.
  intros [HL _] Hu Hi Hs.
  assert (HA : in_closed_arena (Length cfg)
                 (nth i (X (state_at cfg u (S t))) NaN) /\
               in_closed_arena (Length cfg)
                 (nth i (Y (state_at cfg u (S t))) NaN)).
  { apply agent_in_arena; auto. intros t' Ht'. apply Hs. lia. }
  split; [exact HA|].
  intros Ht.
  destruct (history_entry cfg u (timesteps cfg) t i Ht (le_n _) Hi)
    as [-> ->].
  exact HA.
Qed.

Lemma agent_stays_in_closed_arena_witness :
  let cfg := notebook 1 1 in
  (0 < Length cfg <= 1e150 /\ (forall k, 0 <= edge_walk k < 1) /\
   (0 < agents cfg)%nat) /\
  in_closed_arena (Length cfg)
    (entry (Xs (state_at cfg edge_walk (timesteps cfg))) 0 0).
Proof.
  intros cfg.
  assert (H3 : 0 < Length cfg <= 1e150) by (simpl; lra).
  assert (Hi : (0 < agents cfg)%nat) by (unfold agents; simpl; lia).
  split; [split; [exact H3|]; split; [apply edge_walk_uniform | exact Hi]|].
  destruct (agent_stays_in_closed_arena cfg edge_walk 0 0 H3
              edge_walk_uniform Hi) as [_ HH].
  - intros t' Ht'. assert (t' = 0%nat) by lia. subst t'.
    assert (D1p : 0 < D1 cfg) by (simpl; lra).
    assert (D2p : 0 < D2 cfg) by (simpl; lra).
    assert (P3r : 0.001 + P3 cfg <> 0) by (simpl; lra).
    destruct (single_step cfg edge_walk eq_refl D1p D2p P3r
                (state_at cfg edge_walk 0)
                (edge_walk 0 * 50) (edge_walk 1 * 50) 0 eq_refl eq_refl)
      as (HS & _).
    { apply exp_pos. }
    change (Diagonal (agents cfg)) with (Diagonal 1).
    rewrite HS. simpl. eexists. split; [reflexivity|].
    rewrite ln_exp. unfold Rabs.
    destruct (Rcase_abs (- (1 / (0.001 + 3)) * -1)); lra.
  - apply HH. unfold timesteps. simpl. lia.
Defined.

Lemma overshoot_walk_uniform (k : nat) : 0 <= overshoot_walk k < 1.
Proof.
  assert (He : forall r, r < 0 -> 0 < exp r < 1).
  { intros r Hr. split; [apply exp_pos|].
    rewrite <- exp_0. apply exp_increasing. exact Hr. }
  pose proof (He (-3) ltac:(lra)). pose proof (He (-0.25) ltac:(lra)).
  destruct k as [|[|[|[|[|[|k]]]]]]; simpl; lra.
Qed.

(** A mussel thrown out of the arena stays out after a short step: at
    (1/2, 1/2) in an arena of length 1 it takes a step of 3 along y, is
    corrected once to y = 2.5, then takes a step of 1/4 and is corrected
    to y = 1.75. *)
Lemma short_step_after_overshoot :
  let cfg := unit_arena in
  nth 0 (Stepsize_at cfg overshoot_walk (Diagonal 1)
                     (state_at cfg overshoot_walk 1)) NaN = Fin 0.25 /\
  Y (state_at cfg overshoot_walk 2) = [Fin 1.75].
Proof.
  intros cfg.
  assert (D1p : 0 < D1 cfg) by (simpl; lra).
  assert (D2p : 0 < D2 cfg) by (simpl; lra).
  assert (P3r : 0.001 + P3 cfg <> 0) by (simpl; lra).
  assert (Hcos : cos (0 * 360 / 180 * PI) = 1).
  { replace (0 * 360 / 180 * PI) with 0 by lra. apply cos_0. }
  assert (Hsin : sin (0 * 360 / 180 * PI) = 0).
  { replace (0 * 360 / 180 * PI) with 0 by lra. apply sin_0. }
  (* first timestep: a step of 3 *)
  destruct (single_step cfg overshoot_walk eq_refl D1p D2p P3r
              (state_at cfg overshoot_walk 0)
              (overshoot_walk 0 * 1) (overshoot_walk 1 * 1) 0
              eq_refl eq_refl) as (_ & HX1 & HY1).
  { apply exp_pos. }
  assert (EX1 : X (state_at cfg overshoot_walk 1) = [Fin 0.5]).
  { rewrite state_at_S. change (Diagonal (agents cfg)) with (Diagonal 1).
    etransitivity; [exact HX1|]. rewrite boundary_Fin. simpl.
    rewrite ln_exp, Hsin. f_equal. f_equal. rdec; lra. }
  assert (EY1 : Y (state_at cfg overshoot_walk 1) = [Fin 2.5]).
  { rewrite state_at_S. change (Diagonal (agents cfg)) with (Diagonal 1).
    etransitivity; [exact HY1|]. rewrite boundary_Fin. simpl.
    rewrite ln_exp, Hcos. f_equal. f_equal. rdec; lra. }
  (* second timestep: a step of 1/4 *)
  assert (Hc : cursor (state_at cfg overshoot_walk 1) = 4%nat)
    by (rewrite single_agent_cursor; reflexivity).
  destruct (single_step cfg overshoot_walk eq_refl D1p D2p P3r
              (state_at cfg overshoot_walk 1) 0.5 2.5 1 EX1 EY1)
    as (HS2 & _ & HY2).
  { rewrite Hc. apply exp_pos. }
  rewrite Hc in HS2, HY2. split.
  - rewrite HS2. simpl. rewrite ln_exp. f_equal. lra.
  - rewrite state_at_S. change (Diagonal (agents cfg)) with (Diagonal 1).
    etransitivity; [exact HY2|]. rewrite boundary_Fin. simpl.
    rewrite ln_exp, Hcos. f_equal. f_equal. rdec; lra.
Qed.

(** C4, as stated, fails twice.  At the closed end: a step of magnitude 1
    <= Length = 2 ends on y = 2 = Length, outside [0, Length) (see
    [half_open_arena_fails]).  And by the single pass: in an arena of
    length 1 a mussel thrown out by a step of 3 is still at y = 1.75 after
    the next timestep, whose step 1/4 does not exceed Length. *)
Lemma arena_claim_fails :
  (exists Ys_ : matrix,
     (exists Xs_, run unit_beta edge_walk = Ok (Xs_, Ys_)) /\
     nth 0 (Stepsize_at unit_beta edge_walk (Diagonal 1)
                        (state_at unit_beta edge_walk 0)) NaN = Fin 1 /\
     Rabs 1 <= Length unit_beta /\
     ~ in_arena (Length unit_beta) (entry Ys_ 0 0)) /\
  (exists Ys_ : matrix,
     (exists Xs_, run unit_arena overshoot_walk = Ok (Xs_, Ys_)) /\
     (1 <= N unit_arena)%Z /\ 0 < Length unit_arena /\
     0 < D1 unit_arena /\ 0 < D2 unit_arena /\
     (forall k, 0 <= overshoot_walk k < 1) /\
     nth 0 (Stepsize_at unit_arena overshoot_walk (Diagonal 1)
                        (state_at unit_arena overshoot_walk 1)) NaN
       = Fin 0.25 /\
     Rabs 0.25 <= Length unit_arena /\
     entry Ys_ 0 1 = Fin 1.75 /\
     ~ in_closed_arena (Length unit_arena) (entry Ys_ 0 1)).
Proof.
  split.
  - destruct half_open_arena_fails
      as (_ & _ & HS & HR & Xs_ & Ys_ & Hrun & _ & Hout).
    exists Ys_. split; [exists Xs_; exact Hrun|]. auto.
  - destruct short_step_after_overshoot as [HS HY].
    eexists. split; [eexists; apply run_ok; simpl; lia|].
    assert (EY : entry (Ys (state_at unit_arena overshoot_walk
                                     (timesteps unit_arena))) 0 1
                 = Fin 1.75).
    { destruct (history_entry unit_arena overshoot_walk 2 1 0) as [_ HYs];
        try (unfold timesteps, agents; simpl; lia).
      change (timesteps unit_arena) with 2%nat.
      rewrite HYs, HY. reflexivity. }
    repeat split; try (simpl; lra); try (simpl; lia).
    + apply overshoot_walk_uniform.
    + apply overshoot_walk_uniform.
    + exact HS.
    + simpl. unfold Rabs. destruct (Rcase_abs 0.25); lra.
    + exact EY.
    + rewrite EY. intros (r & Hr & Hrange). injection Hr as <-.
      simpl in Hrange. lra.
Qed.

(** * Further properties, operation by operation *)

(** ** The distance of two agents at real positions *)

(** X2. For agents at real positions an entry of the matrix of [dist] is
    never nan and never below zero, and it is zero for two agents at the
    same place. *)
Theorem dist_never_negative_nor_nan (x y : list R) (i j : nat) :
  length x = length y -> (i < length x)%nat -> (j < length x)%nat ->
  let d := entry (dist (map Fin x) (map Fin y)) i j in
  d <> NaN /\
  flt d (Fin 0) = false /\
  (nth i x 0 = nth j x 0 -> nth i y 0 = nth j y 0 -> d = Fin 0).
Proof.
  intros H Hi Hj d. unfold d. rewrite entry_dist_Fin by auto.
  split; [discriminate|]. split.
  - simpl. pose proof (sqrt_pos ((nth i x 0 - nth j x 0) ^ 2 +
                                 (nth i y 0 - nth j y 0) ^ 2)) as Hs.
    unfold euclid. destruct (Rlt_dec _ 0) as [E|_]; [exfalso; lra|].
    reflexivity.
  - intros Ex Ey. unfold euclid. rewrite Ex, Ey. f_equal.
    replace ((nth j x 0 - nth j x 0) ^ 2 + (nth j y 0 - nth j y 0) ^ 2)
      with 0 by ring.
    apply sqrt_0.
Qed.

Lemma dist_never_negative_nor_nan_witness :
  let d := entry (dist (map Fin [0; 3; 0]) (map Fin [0; 4; 0])) 0 2 in
  d <> NaN /\ flt d (Fin 0) = false /\ d = Fin 0.
Proof.
  destruct (dist_never_negative_nor_nan [0; 3; 0] [0; 4; 0] 0 2)
    as (H1 & H2 & H3); try reflexivity; try (simpl; lia).
  split; [exact H1|]. split; [exact H2|].
  apply H3; reflexivity.
Defined.

(** ** The scale parameter and the step of an isolated mussel *)

Lemma Beta1_at_most_isolated (p1 p2 p3 : R) (d1 d2 : float) :
  -0.001 < p3 ->
  fadd (fmul (Fin p1) d1) (fmul (Fin p2) d2) <> NaN ->
  exists b b0 : R,
    Beta1 p1 p2 p3 d1 d2 = Fin b /\
    fdiv (Fin 1) (fadd (Fin 0.001) (Fin p3)) = Fin b0 /\
    0 <= b <= b0.
Proof.
  intros H3 Hs. unfold Beta1.
  assert (H0 : fdiv (Fin 1) (fadd (Fin 0.001) (Fin p3)) =
               Fin (1 / (0.001 + p3))).
  { simpl. destruct (Req_dec_T (0.001 + p3) 0) as [E|_];
      [exfalso; lra | reflexivity]. }
  assert (Hpos : 0 < 1 / (0.001 + p3)).
  { apply Rdiv_lt_0_compat; lra. }
  destruct (fadd (fmul (Fin p1) d1) (fmul (Fin p2) d2)) as [s| | |].
  - simpl. destruct (Rlt_dec 0.001 s) as [Hlt|Hge].
    + simpl. destruct (Req_dec_T (s + p3) 0) as [E|_]; [exfalso; lra|].
      exists (1 / (s + p3)), (1 / (0.001 + p3)).
      split; [reflexivity|]. split; [exact H0|]. split.
      * apply Rlt_le, Rdiv_lt_0_compat; lra.
      * unfold Rdiv. rewrite !Rmult_1_l.
        apply Rinv_le_contravar; lra.
    + exists (1 / (0.001 + p3)), (1 / (0.001 + p3)).
      split; [exact H0|]. split; [exact H0|]. lra.
  - exists 0, (1 / (0.001 + p3)).
    split; [reflexivity|]. split; [exact H0|]. lra.
  - exists (1 / (0.001 + p3)), (1 / (0.001 + p3)).
    split; [exact H0|]. split; [exact H0|]. lra.
  - contradiction.
Qed.

(** X8. Whatever the two density arrays hold, nan and infinities included,
    the scale parameter [Beta] of an agent whose score
    [P1*Density_In_Dist1 + P2*Density_In_Dist2] is not nan is a real
    number between zero and what [1/(0.001 + P3)] evaluates to, the value
    of an isolated mussel, provided [P3 > -0.001]. *)
Theorem Beta_at_most_isolated (p1 p2 p3 : R) (d1 d2 : array) (i : nat) :
  length d1 = length d2 -> (i < length d1)%nat ->
  -0.001 < p3 ->
  fadd (fmul (Fin p1) (nth i d1 NaN)) (fmul (Fin p2) (nth i d2 NaN)) <> NaN ->
  exists b b0 : R,
    nth i (Beta p1 p2 p3 d1 d2) NaN = Fin b /\
    fdiv (Fin 1) (fadd (Fin 0.001) (Fin p3)) = Fin b0 /\
    0 <= b <= b0.
Proof.
  intros Hl Hi H3 Hs. unfold Beta.
  rewrite (nth_map2 _ _ _ i NaN NaN NaN) by lia.
  apply Beta1_at_most_isolated; auto.
Qed.

Lemma Beta_at_most_isolated_witness :
  exists b b0 : R,
    nth 1 (Beta 100 (-80) 3 [Fin 0; PInf] [Fin 0; Fin 0]) NaN = Fin b /\
    fdiv (Fin 1) (fadd (Fin 0.001) (Fin 3)) = Fin b0 /\
    0 <= b <= b0.
Proof.
  apply (Beta_at_most_isolated 100 (-80) 3 [Fin 0; PInf] [Fin 0; Fin 0] 1).
  - reflexivity.
  - simpl. lia.
  - lra.
  - simpl. unfold signed_inf.
    destruct (Rlt_dec 0 100) as [_|E]; [|exfalso; lra].
    simpl. discriminate.
Defined.

(** X9. With a variate strictly between 0 and 1 the step size of such an
    agent is a real number between zero and the step size the same variate
    gives an isolated mussel, [-(1/(0.001 + P3)) * log(variate)]. *)
Theorem Stepsize_at_most_isolated (p1 p2 p3 : R) (d1 d2 : array)
        (r : list R) (i : nat) :
  length d1 = length d2 -> length r = length d1 -> (i < length d1)%nat ->
  -0.001 < p3 ->
  fadd (fmul (Fin p1) (nth i d1 NaN)) (fmul (Fin p2) (nth i d2 NaN)) <> NaN ->
  0 < nth i r 0 < 1 ->
  exists s s0 : R,
    nth i (Stepsize (Beta p1 p2 p3 d1 d2) r) NaN = Fin s /\
    fmul (fneg (fdiv (Fin 1) (fadd (Fin 0.001) (Fin p3))))
         (flog (Fin (nth i r 0))) = Fin s0 /\
    0 <= s <= s0.
Proof.
  intros Hl Hr Hi H3 Hs Hv.
  destruct (Beta1_at_most_isolated p1 p2 p3 (nth i d1 NaN) (nth i d2 NaN)
              H3 Hs) as (b & b0 & Eb & Eb0 & Hb).
  assert (HlB : length (Beta p1 p2 p3 d1 d2) = length d1)
    by (unfold Beta; apply map2_length; exact Hl).
  unfold Stepsize.
  rewrite (nth_map2 _ _ _ i NaN 0 NaN) by lia.
  unfold Beta. rewrite (nth_map2 _ _ _ i NaN NaN NaN) by lia.
  rewrite Eb, Eb0.
  assert (Hln : ln (nth i r 0) < 0).
  { pose proof (ln_increasing (nth i r 0) 1) as Hinc.
    rewrite ln_1 in Hinc. apply Hinc; lra. }
  simpl. destruct (Rlt_dec 0 (nth i r 0)) as [_|E]; [|exfalso; lra].
  exists (- b * ln (nth i r 0)), (- b0 * ln (nth i r 0)).
  split; [reflexivity|]. split; [reflexivity|].
  set (l := ln (nth i r 0)) in *. clearbody l.
  assert (0 <= b * - l) by (apply Rmult_le_pos; lra).
  assert (0 <= (b0 - b) * - l) by (apply Rmult_le_pos; lra).
  lra.
Qed.

Lemma Stepsize_at_most_isolated_witness :
  exists s s0 : R,
    nth 0 (Stepsize (Beta 100 (-80) 3 [Fin 1] [Fin 1]) [1 / 2]) NaN =
      Fin s /\
    fmul (fneg (fdiv (Fin 1) (fadd (Fin 0.001) (Fin 3))))
         (flog (Fin (nth 0 [1 / 2] 0))) = Fin s0 /\
    0 <= s <= s0.
Proof.
  apply (Stepsize_at_most_isolated 100 (-80) 3 [Fin 1] [Fin 1] [1 / 2] 0).
  - reflexivity.
  - reflexivity.
  - simpl. lia.
  - lra.
  - simpl. discriminate.
  - simpl. lra.
Defined.

(** ** The displacement along one axis *)

(** X10. For an agent with a real angle and a real step size the
    displacements [np.sin(Angle/180.0*np.pi)*Stepsize] and
    [np.cos(Angle/180.0*np.pi)*Stepsize] are real numbers of magnitude at
    most that of the step size. *)
Theorem axis_displacement_at_most_Stepsize (Angle_ Stepsize_ : array)
        (i : nat) (a s : R) :
  length Angle_ = length Stepsize_ -> (i < length Stepsize_)%nat ->
  nth i Angle_ NaN = Fin a -> nth i Stepsize_ NaN = Fin s ->
  exists dx dy : R,
    nth i (step_sin Angle_ Stepsize_) NaN = Fin dx /\
    nth i (step_cos Angle_ Stepsize_) NaN = Fin dy /\
    Rabs dx <= Rabs s /\ Rabs dy <= Rabs s.
Proof.
  intros Hl Hi Ea Es. unfold step_sin, step_cos.
  rewrite !(nth_map2 _ _ _ i NaN NaN NaN) by lia.
  rewrite Ea, Es. simpl.
  destruct (Req_dec_T 180 0) as [E|_]; [exfalso; lra|]. simpl.
  exists (sin (a / 180 * PI) * s), (cos (a / 180 * PI) * s).
  split; [reflexivity|]. split; [reflexivity|].
  pose proof (Rabs_pos s) as Hs.
  split; rewrite Rabs_mult.
  - assert (Hb : Rabs (sin (a / 180 * PI)) <= 1).
    { pose proof (SIN_bound (a / 180 * PI)) as [H1 H2].
      apply Rabs_le. lra. }
    nra.
  - assert (Hb : Rabs (cos (a / 180 * PI)) <= 1).
    { pose proof (COS_bound (a / 180 * PI)) as [H1 H2].
      apply Rabs_le. lra. }
    nra.
Qed.

Lemma axis_displacement_at_most_Stepsize_witness :
  exists dx dy : R,
    nth 0 (step_sin [Fin 90] [Fin 2]) NaN = Fin dx /\
    nth 0 (step_cos [Fin 90] [Fin 2]) NaN = Fin dy /\
    Rabs dx <= Rabs 2 /\ Rabs dy <= Rabs 2.
Proof.
  apply (axis_displacement_at_most_Stepsize [Fin 90] [Fin 2] 0 90 2).
  - reflexivity.
  - simpl. lia.
  - reflexivity.
  - reflexivity.
Defined.

(** ** A step that is not a real number *)

Lemma fmul_Fin_not_finite (c : R) (s : float) :
  ~ finite s -> ~ finite (fmul (Fin c) s).
Proof.
  intros Hs [r Hr].
  destruct s; try (apply Hs; eexists; reflexivity);
    simpl in Hr; unfold signed_inf in Hr; rdec; discriminate.
Qed.

Lemma fadd_not_finite_r (a b : float) : ~ finite b -> ~ finite (fadd a b).
Proof.
  intros Hb [r Hr]. destruct b; try (apply Hb; eexists; reflexivity);
    destruct a; simpl in Hr; discriminate.
Qed.

Lemma step_spoiled (cfg : config) (u : nat -> R) (st : state)
      (t i : nat) :
  well_shaped cfg st -> (i < agents cfg)%nat ->
  let Dg := Diagonal (agents cfg) in
  ~ finite (nth i (Stepsize_at cfg u Dg st) NaN) ->
  ~ finite (nth i (X (step cfg u Dg st t)) NaN) /\
  ~ finite (nth i (Y (step cfg u Dg st t)) NaN).
Proof.
  intros HW Hi Dg Hs.
  destruct (nth_step cfg u st t i HW Hi) as (_ & _ & EX & EY).
  fold Dg in EX, EY. rewrite EX, EY. rewrite nth_Angle_at by auto.
  simpl fdiv. destruct (Req_dec_T 180 0) as [E|_]; [exfalso; lra|].
  simpl fmul at 2 4. simpl fsin. simpl fcos.
  split; apply boundary_not_finite, fadd_not_finite_r,
    fmul_Fin_not_finite, Hs.
Qed.

Lemma not_finite_later (cfg : config) (u : nat -> R) (t k i : nat) :
  (i < agents cfg)%nat ->
  (~ finite (nth i (X (state_at cfg u t)) NaN) ->
   ~ finite (nth i (X (state_at cfg u (t + k))) NaN)) /\
  (~ finite (nth i (Y (state_at cfg u t)) NaN) ->
   ~ finite (nth i (Y (state_at cfg u (t + k))) NaN)).
Proof.
  intros Hi. induction k as [|k [IHX IHY]].
  - rewrite Nat.add_0_r. split; auto.
  - rewrite Nat.add_succ_r, state_at_S.
    destruct (step_not_finite cfg u (state_at cfg u (t + k)) (t + k) i
                (well_shaped_state_at cfg u _) Hi) as [HX HY].
    split; intros H; [apply HX, IHX, H | apply HY, IHY, H].
Qed.

(** X7. A step size that is infinite or nan spoils the mussel for the rest
    of the run: after that timestep and after every later one neither of
    its coordinates is a real number. *)
Theorem unreal_step_spoils_coordinates (cfg : config) (u : nat -> R)
        (t' t i : nat) :
  (i < agents cfg)%nat -> (t' <= t)%nat ->
  ~ finite (nth i (Stepsize_at cfg u (Diagonal (agents cfg))
                               (state_at cfg u t')) NaN) ->
  ~ finite (nth i (X (state_at cfg u (S t))) NaN) /\
  ~ finite (nth i (Y (state_at cfg u (S t))) NaN).
Proof.
  intros Hi Ht Hs.
  destruct (step_spoiled cfg u (state_at cfg u t') t' i
              (well_shaped_state_at cfg u t') Hi Hs) as [HX HY].
  rewrite <- state_at_S in HX, HY.
  destruct (not_finite_later cfg u (S t') (t - t') i Hi) as [LX LY].
  replace (S t' + (t - t'))%nat with (S t) in LX, LY by lia.
  split; [apply LX, HX | apply LY, HY].
Qed.

Lemma unreal_step_spoils_coordinates_witness :
  let cfg := notebook 1 300 in
  ~ finite (nth 0 (X (state_at cfg zero_draw (S 3))) NaN) /\
  ~ finite (nth 0 (Y (state_at cfg zero_draw (S 3))) NaN).
Proof.
  intros cfg.
  apply (unreal_step_spoils_coordinates cfg zero_draw 0 3 0).
  - unfold agents. simpl. lia.
  - lia.
  - assert (H1 : 0 < D1 cfg) by (simpl; lra).
    assert (H2 : 0 < D2 cfg) by (simpl; lra).
    destruct (single_densities cfg H1 H2 (state_at cfg zero_draw 0)
                (zero_draw 0 * 50) (zero_draw 1 * 50) eq_refl eq_refl)
      as (_ & _ & HB).
    change (Diagonal (agents cfg)) with (Diagonal 1).
    unfold Stepsize_at, Stepsize. rewrite HB. simpl.
    destruct (Req_dec_T (0.001 + 3) 0) as [E|_]; [exfalso; lra|].
    simpl. destruct (Rlt_dec 0 0) as [E|_]; [exfalso; lra|].
    simpl. unfold signed_inf.
    destruct (Rlt_dec 0 (- (1 / (0.001 + 3)))) as [E|_]; [exfalso; lra|].
    destruct (Rlt_dec (- (1 / (0.001 + 3))) 0) as [_|E]; [|exfalso; lra].
    intros [r Hr]. discriminate.
Defined.

(** ** A run without mussels *)

(** X15. With [N = 0], a number of timesteps between 0 and 300, a length
    that is not zero and radii of magnitude at most 1e150 the notebook runs
    to its end and both history arrays are empty. *)
Theorem run_without_mussels (cfg : config) (u : nat -> R) :
  N cfg = 0%Z -> (0 <= EndTime cfg <= 300)%Z -> Length cfg <> 0 ->
  Rabs (D1 cfg) <= 1e150 -> Rabs (D2 cfg) <= 1e150 ->
  run_all cfg u = Ok ([], []).
Proof.
  intros HN HT HL H1 H2.
  rewrite run_all_ok
    by (auto using plain_radius_no_overflow; lia).
  destruct (well_shaped_state_at cfg u (timesteps cfg))
    as (_ & _ & HXs & HYs).
  unfold agents in HXs, HYs. rewrite HN in HXs, HYs.
  rewrite (shape_no_rows _ _ HXs), (shape_no_rows _ _ HYs). reflexivity.
Qed.

Lemma run_without_mussels_witness :
  run_all (notebook 0 300) far_apart = Ok ([], []).
Proof.
  apply (run_without_mussels (notebook 0 300) far_apart).
  - reflexivity.
  - simpl. lia.
  - simpl. lra.
  - simpl. unfold Rabs. destruct (Rcase_abs 2); lra.
  - simpl. unfold Rabs. destruct (Rcase_abs 6); lra.
Defined.
